(** * privval/signer_listener_endpoint.go: the listening end of the remote signer link

    A shallow embedding of [SignerListenerEndpoint] and of its methods
    [connect], [Close], [SendRequest], [ping], [readMessage], [writeMessage],
    [OnStart], [OnStop] and of the heartbeat goroutine started by [OnStart].

    The endpoint talks to three collaborators that live outside the file:
    the [net.Listener] and the [net.Conn] it was given, and the amino codec
    [cdc].  They are kept abstract behind the class [Net]: every call takes the
    state of the outside world and gives back a result and the next state of
    the world, so that a theorem quantified over the instance holds whatever
    the peer and the network do.  Every call that leaves the endpoint (a
    socket operation, a log line, a mutex operation, a channel or ticker
    operation, the [go] statement) is appended to a chronological trace.

    Panics that Go raises on the endpoint's own data are part of the model
    (a method called on a nil interface, [close] on a closed channel, a nil
    ticker dereferenced, [time.NewTicker] called with a period that is not
    positive); what happens inside a collaborator is not. *)

From Stdlib Require Import ZArith Lia Bool.
From stdpp Require Import base option list strings.

#[local] Open Scope Z_scope.
#[local] Open Scope string_scope.
#[local] Open Scope list_scope.

(** ** Data model *)

(** Handles of the objects the Go runtime and the net package own. *)
Definition Conn := nat.
Definition Listener := nat.
Definition Chan := nat.
Definition Ticker := nat.

(** The concrete message types behind the [RemoteSignerMsg] interface.  Only
    the ping pair matters to this file; every other message is carried as a
    tag with its payload.  A value of the interface is an
    [option RemoteSignerMsg], [None] being Go's nil. *)
Inductive RemoteSignerMsg : Type :=
| PingRequest
| PingResponse
| SignerMsg (tag : nat) (payload : list nat).

(** The type assertion of line 177, to a pointer to [PingResponse]: its [ok]. *)
Definition is_PingResponse (response : option RemoteSignerMsg) : bool :=
  match response with
  | Some PingResponse => true
  | _ => false
  end.

(** An error value of a type declared outside the package (net, amino).
    [io_Timeout] tells whether its dynamic type has the method
    [Timeout() bool], which is all the type assertion [err.(timeoutError)]
    looks at; [io_text] is [err.Error()]. *)
Record ioerr : Type := IOErr { io_Timeout : bool; io_text : string }.

(** Values of Go's [error] interface; nil is [None] of [option error].
    [ErrUnexpectedResponse] and [ErrListenerTimeout] are the package's
    exported sentinel values, declared in another file of the package;
    [Errorf] is a value built by [fmt.Errorf], [ErrorWrap] one built by
    [cmn.ErrorWrap], and [ErrIO] a value of a type of another package.  A
    collaborator returns a value of this interface, whichever it likes: one
    of its own or any other it can name, the exported sentinels included.
    The endpoint hands such a value on as it is, and line 93 compares by
    identity. *)
Inductive error : Type :=
| ErrUnexpectedResponse
| ErrListenerTimeout
| Errorf (text : string)
| ErrorWrap (cause : error) (text : string)
| ErrIO (e : ioerr).

(** [err == ErrUnexpectedResponse] of line 93. *)
Definition is_ErrUnexpectedResponse (err : error) : bool :=
  match err with
  | ErrUnexpectedResponse => true
  | _ => false
  end.

(** The fields of [SignerListenerEndpoint].  The embedded [BaseService] only
    contributes the logger, whose output goes to the trace; the mutex shows
    in the trace as well. *)
Record Endpoint : Type := mkEndpoint {
  listener : option Listener;
  conn : option Conn;
  cancelPingCh : option Chan;
  pingTicker : option Ticker;
  heartbeatPeriod : Z
}.

Definition defaultHeartbeatSeconds : Z := 2.
Definition defaultMaxDialRetries : Z := 10.
(** [time.Second], in nanoseconds. *)
Definition time_Second : Z := 1000000000.
Definition default_heartbeatPeriod : Z := time_Second * defaultHeartbeatSeconds.
(** The constant of [readMessage]. *)
Definition maxRemoteSignerMsgSize : Z := 1024 * 10.

Definition NewSignerListenerEndpoint (l : option Listener) : Endpoint :=
  {| listener := l; conn := None; cancelPingCh := None; pingTicker := None;
     heartbeatPeriod := default_heartbeatPeriod |}.

(** [SignerValidatorEndpointSetHeartbeat period], applied to an endpoint. *)
Definition SignerValidatorEndpointSetHeartbeat (period : Z) (sc : Endpoint) : Endpoint :=
  {| listener := listener sc; conn := conn sc; cancelPingCh := cancelPingCh sc;
     pingTicker := pingTicker sc; heartbeatPeriod := period |}.

Definition set_conn (c : option Conn) (ve : Endpoint) : Endpoint :=
  {| listener := listener ve; conn := c; cancelPingCh := cancelPingCh ve;
     pingTicker := pingTicker ve; heartbeatPeriod := heartbeatPeriod ve |}.

Definition set_cancelPingCh (ch : option Chan) (ve : Endpoint) : Endpoint :=
  {| listener := listener ve; conn := conn ve; cancelPingCh := ch;
     pingTicker := pingTicker ve; heartbeatPeriod := heartbeatPeriod ve |}.

Definition set_pingTicker (t : option Ticker) (ve : Endpoint) : Endpoint :=
  {| listener := listener ve; conn := conn ve; cancelPingCh := cancelPingCh ve;
     pingTicker := t; heartbeatPeriod := heartbeatPeriod ve |}.

(** What can be observed of a run, in the order it happens. *)
Inductive Event : Type :=
| EvLock
| EvUnlock
| EvConnClose (c : Conn)
| EvListenerClose (l : Listener)
| EvAccept (l : Listener)
| EvWrite (c : Conn) (msg : option RemoteSignerMsg)
| EvRead (c : Conn)
| EvLogError (msg : string) (err : error)
| EvLogInfo (msg : string)
| EvMakeChan (ch : Chan)
| EvCloseChan (ch : Chan)
| EvNewTicker (t : Ticker) (period : Z)
| EvTickerStop (t : Ticker)
| EvGo.

Definition is_EvAccept (ev : Event) : bool :=
  match ev with EvAccept _ => true | _ => false end.
Definition is_EvRead (ev : Event) : bool :=
  match ev with EvRead _ => true | _ => false end.
Definition is_EvListenerClose (ev : Event) : bool :=
  match ev with EvListenerClose _ => true | _ => false end.
Definition is_EvCloseChan (ev : Event) : bool :=
  match ev with EvCloseChan _ => true | _ => false end.
Definition is_EvGo (ev : Event) : bool :=
  match ev with EvGo => true | _ => false end.

(** How many events of a trace satisfy [p]. *)
Fixpoint count (p : Event → bool) (tr : list Event) : nat :=
  match tr with
  | [] => 0
  | ev :: tr' => (if p ev then 1 else 0) + count p tr'
  end%nat.

(** The collaborators: the methods of [net.Conn] and [net.Listener] that the
    file calls, and the two codec functions.  [W] is the state of everything
    outside the endpoint. *)
Class Net (W : Type) : Type := {
  conn_Close : Conn → W → option error * W;
  listener_Close : Listener → W → option error * W;
  (** Go's [(net.Conn, error)]: both components as the listener gives them. *)
  listener_Accept : Listener → W → (option Conn * option error) * W;
  cdc_MarshalBinaryLengthPrefixedWriter :
    Conn → option RemoteSignerMsg → W → option error * W;
  cdc_UnmarshalBinaryLengthPrefixedReader :
    Conn → Z → W → (option RemoteSignerMsg * option error) * W
}.

(** ** The monad of the methods: state passing with panics *)

(** The endpoint, the world, the channels made so far ([true]: closed), the
    periods of the tickers made so far, and the trace. *)
Record Sys (W : Type) : Type := mkSys {
  ep : Endpoint;
  world : W;
  chans : list bool;
  tickers : list Z;
  trace : list Event
}.
Arguments mkSys {W} _ _ _ _ _.
Arguments ep {W} _.
Arguments world {W} _.
Arguments chans {W} _.
Arguments tickers {W} _.
Arguments trace {W} _.

Inductive result (A : Type) : Type :=
| Done (a : A)
| Panicked (why : string).
Arguments Done {A} _.
Arguments Panicked {A} _.

Definition M (W A : Type) : Type := Sys W → result A * Sys W.

Definition ret {W A} (a : A) : M W A := λ s, (Done a, s).

Definition bind {W A B} (m : M W A) (k : A → M W B) : M W B :=
  λ s, match m s with
       | (Done a, s') => k a s'
       | (Panicked why, s') => (Panicked why, s')
       end.

Definition panic {W A} (why : string) : M W A := λ s, (Panicked why, s).

Declare Scope go_scope.
Delimit Scope go_scope with go.
Notation "x <- m ;; k" := (bind m (λ x, k))
  (at level 100, m at next level, right associativity) : go_scope.
Notation "m ;; k" := (bind m (λ _, k))
  (at level 100, right associativity) : go_scope.
#[local] Open Scope go_scope.

Definition emit {W} (ev : Event) : M W unit :=
  λ s, (Done tt, mkSys (ep s) (world s) (chans s) (tickers s) (trace s ++ [ev])).

Definition get_ep {W} : M W Endpoint := λ s, (Done (ep s), s).

Definition modify_ep {W} (f : Endpoint → Endpoint) : M W unit :=
  λ s, (Done tt, mkSys (f (ep s)) (world s) (chans s) (tickers s) (trace s)).

(** A call into a collaborator: the event is recorded, the world moves on. *)
Definition call {W A} (ev : Event) (f : W → A * W) : M W A :=
  λ s, let '(a, w') := f (world s) in
       (Done a, mkSys (ep s) w' (chans s) (tickers s) (trace s ++ [ev])).

(** [mtx.Lock()] followed by [defer mtx.Unlock()]: the unlock runs when the
    body returns and also when it panics. *)
Definition with_mtx {W A} (body : M W A) : M W A :=
  λ s, let '(r, s') := (emit EvLock ;; body) s in
       (r, mkSys (ep s') (world s') (chans s') (tickers s') (trace s' ++ [EvUnlock])).

Definition Logger_Error {W} (msg : string) (err : error) : M W unit :=
  emit (EvLogError msg err).

Definition Logger_Info {W} (msg : string) : M W unit :=
  emit (EvLogInfo msg).

(** Lines 190-192 and 204-206: an error whose type has a [Timeout] method is
    replaced by [ErrListenerTimeout] wrapped with the text of the error; any
    other error, and nil, are left as they are.  The values that [fmt.Errorf]
    and [cmn.ErrorWrap] build, the package's sentinels among them, have no
    such method. *)
Definition wrap_timeout (e : option error) : option error :=
  match e with
  | Some (ErrIO io) =>
      if io_Timeout io
      then Some (ErrorWrap ErrListenerTimeout (io_text io))
      else Some (ErrIO io)
  | _ => e
  end.

(** ** The methods *)

Section Methods.
Context {W : Type} `{Net W}.

(** [connect], lines 215-246.  The result is [(closed, err)]. *)
Definition connect : M W (bool * option error) :=
  with_mtx (
    ve <- get_ep ;;
    match conn ve with
    | Some c =>
        tmpErr <- call (EvConnClose c) (conn_Close c) ;;
        match tmpErr with
        | Some e => Logger_Error "error closing socket val connection during connect" e
        | None => ret tt
        end
    | None => ret tt
    end ;;
    match listener ve with
    | None => panic "invalid memory address or nil pointer dereference"
    | Some l =>
        r <- call (EvAccept l) (listener_Accept l) ;;
        let '(c', err) := r in
        modify_ep (set_conn c') ;;
        match err with
        | Some e => ret (false, Some e)
        | None =>
            ve' <- get_ep ;;
            match conn ve' with
            | None => ret (true, None)
            | Some c'' =>
                match err with
                | Some e =>
                    tmpErr <- call (EvConnClose c'') (conn_Close c'') ;;
                    match tmpErr with
                    | Some e' => Logger_Error "error closing connection" e'
                    | None => ret tt
                    end ;;
                    ret (false, Some e)
                | None => ret (false, None)
                end
            end
        end
    end).

(** [Close], lines 129-149. *)
Definition Close : M W (option error) :=
  with_mtx (
    ve <- get_ep ;;
    r <- match conn ve with
         | Some c =>
             err <- call (EvConnClose c) (conn_Close c) ;;
             match err with
             | Some e => Logger_Error "Closing connection" e ;; ret (Some e)
             | None => modify_ep (set_conn None) ;; ret None
             end
         | None => ret None
         end ;;
    match r with
    | Some e => ret (Some e)
    | None =>
        ve' <- get_ep ;;
        match listener ve' with
        | Some l =>
            err <- call (EvListenerClose l) (listener_Close l) ;;
            match err with
            | Some e => Logger_Error "Closing Listener" e ;; ret (Some e)
            | None => ret None
            end
        | None => ret None
        end
    end).

(** [writeMessage], lines 197-209. *)
Definition writeMessage (msg : option RemoteSignerMsg) : M W (option error) :=
  ve <- get_ep ;;
  match conn ve with
  | None => ret (Some (Errorf "endpoint is not connected"))
  | Some c =>
      err <- call (EvWrite c msg) (cdc_MarshalBinaryLengthPrefixedWriter c msg) ;;
      ret (wrap_timeout err)
  end.

(** [readMessage], lines 185-195.  The method does not look at [ve.conn]
    before it hands it to the codec as the reader; on a nil connection the
    read dereferences nil. *)
Definition readMessage : M W (option RemoteSignerMsg * option error) :=
  ve <- get_ep ;;
  match conn ve with
  | None => panic "invalid memory address or nil pointer dereference"
  | Some c =>
      r <- call (EvRead c)
             (cdc_UnmarshalBinaryLengthPrefixedReader c maxRemoteSignerMsgSize) ;;
      let '(msg, err) := r in
      ret (msg, wrap_timeout err)
  end.

(** [SendRequest], lines 152-167. *)
Definition SendRequest (request : option RemoteSignerMsg)
  : M W (option RemoteSignerMsg * option error) :=
  with_mtx (
    err <- writeMessage request ;;
    match err with
    | Some e => ret (None, Some e)
    | None =>
        r <- readMessage ;;
        let '(res, err) := r in
        match err with
        | Some e => ret (None, Some e)
        | None => ret (res, None)
        end
    end).

(** [ping], lines 170-183. *)
Definition ping : M W (option error) :=
  r <- SendRequest (Some PingRequest) ;;
  let '(response, err) := r in
  match err with
  | Some e => ret (Some e)
  | None =>
      if is_PingResponse response then ret None
      else ret (Some ErrUnexpectedResponse)
  end.

(** [make(chan struct{}, 1)]: a fresh, open channel. *)
Definition make_chan : M W Chan :=
  λ s, let ch := length (chans s) in
       (Done ch, mkSys (ep s) (world s) (chans s ++ [false]) (tickers s)
                   (trace s ++ [EvMakeChan ch])).

(** [close(ch)]: Go panics when the channel is already closed. *)
Definition close_chan (ch : Chan) : M W unit :=
  λ s, match chans s !! ch with
       | Some false =>
           (Done tt, mkSys (ep s) (world s) (<[ch := true]> (chans s)) (tickers s)
                       (trace s ++ [EvCloseChan ch]))
       | _ => (Panicked "close of closed channel", s)
       end.

(** [time.NewTicker(d)]: Go panics when [d] is not positive. *)
Definition time_NewTicker (d : Z) : M W Ticker :=
  λ s, if (d <=? 0)%Z
       then (Panicked "non-positive interval for NewTicker", s)
       else
         let t := length (tickers s) in
         (Done t, mkSys (ep s) (world s) (chans s) (tickers s ++ [d])
                    (trace s ++ [EvNewTicker t d])).

(** The two states of the heartbeat goroutine. *)
Inductive loop_state : Type := Probing | Terminated.

(** Which case of the [select] of lines 88-112 fires. *)
Inductive select_case : Type := Tick | Cancel.

(** The body of the case of line 89, lines 90-108. *)
Definition on_tick : M W loop_state :=
  err <- ping ;;
  match err with
  | Some e =>
      Logger_Error "Ping" e ;;
      if is_ErrUnexpectedResponse e then ret Terminated
      else
        r <- connect ;;
        let '(closed, err) := r in
        match err with
        | Some e' =>
            Logger_Error "Reconnecting to remote signer failed" e' ;;
            ret Probing
        | None =>
            if closed : bool then Logger_Info "listener is closing" ;; ret Terminated
            else Logger_Info "Re-created connection to remote signer" ;; ret Probing
        end
  | None => ret Probing
  end.

(** One turn of the [for] of line 87.  Which case fires is decided by the
    ticker and by the scheduler and is an input here.  Both cases go
    through [ve.pingTicker], which must not be nil. *)
Definition heartbeat_iter (c : select_case) : M W loop_state :=
  ve <- get_ep ;;
  match pingTicker ve with
  | None => panic "invalid memory address or nil pointer dereference"
  | Some t =>
      match c with
      | Tick => on_tick
      | Cancel => emit (EvTickerStop t) ;; ret Terminated
      end
  end.

(** The goroutine of lines 86-114, run over the cases that fire in turn.
    It is still [Probing] when the cases run out before it has returned. *)
Fixpoint heartbeat (cases : list select_case) : M W loop_state :=
  match cases with
  | [] => ret Probing
  | c :: cases' =>
      st <- heartbeat_iter c ;;
      match st with
      | Terminated => ret Terminated
      | Probing => heartbeat cases'
      end
  end.

(** [OnStart], lines 68-117.  The [go] statement is the event [EvGo]; the
    goroutine it starts is [heartbeat]. *)
Definition OnStart : M W (option error) :=
  r <- connect ;;
  let '(closed, err) := r in
  match err with
  | Some e => Logger_Error "OnStart" e ;; ret (Some e)
  | None =>
      if closed : bool then ret (Some (Errorf "listener is closed"))
      else
        ch <- make_chan ;;
        modify_ep (set_cancelPingCh (Some ch)) ;;
        ve <- get_ep ;;
        t <- time_NewTicker (heartbeatPeriod ve) ;;
        modify_ep (set_pingTicker (Some t)) ;;
        emit EvGo ;;
        ret None
  end.

(** [OnStop], lines 120-126.  The result of [Close] is dropped. *)
Definition OnStop : M W unit :=
  ve <- get_ep ;;
  match cancelPingCh ve with
  | Some ch => close_chan ch ;; modify_ep (set_cancelPingCh None)
  | None => ret tt
  end ;;
  _ <- Close ;;
  ret tt.

End Methods.

(** ** A scripted world

    A concrete instance of [Net] to run the methods on: each collaborator
    answers from its own queue and succeeds once the queue is empty (an
    [Accept] with nothing queued gives no connection and no error). *)
Record Script : Type := mkScript {
  q_connClose : list (option error);
  q_listenerClose : list (option error);
  q_accept : list (option Conn * option error);
  q_write : list (option error);
  q_read : list (option RemoteSignerMsg * option error)
}.

#[export] Instance Script_Net : Net Script := {|
  conn_Close _ w :=
    (default None (head (q_connClose w)),
     mkScript (tail (q_connClose w)) (q_listenerClose w) (q_accept w) (q_write w) (q_read w));
  listener_Close _ w :=
    (default None (head (q_listenerClose w)),
     mkScript (q_connClose w) (tail (q_listenerClose w)) (q_accept w) (q_write w) (q_read w));
  listener_Accept _ w :=
    (default (None, None) (head (q_accept w)),
     mkScript (q_connClose w) (q_listenerClose w) (tail (q_accept w)) (q_write w) (q_read w));
  cdc_MarshalBinaryLengthPrefixedWriter _ _ w :=
    (default None (head (q_write w)),
     mkScript (q_connClose w) (q_listenerClose w) (q_accept w) (tail (q_write w)) (q_read w));
  cdc_UnmarshalBinaryLengthPrefixedReader _ _ w :=
    (default (None, None) (head (q_read w)),
     mkScript (q_connClose w) (q_listenerClose w) (q_accept w) (q_write w) (tail (q_read w)))
|}.

Definition quiet : Script := mkScript [] [] [] [] [].

(** A system around an endpoint, with nothing allocated and an empty trace. *)
Definition boot {W} (ve : Endpoint) (w : W) : Sys W := mkSys ve w [] [] [].

Definition eof : error := ErrIO (IOErr false "EOF").
Definition io_timeout : error := ErrIO (IOErr true "i/o timeout").

(** ** Definitions used to state the properties *)

(** The system [s] after the events [evs] have been observed. *)
Definition logged {W} (s : Sys W) (evs : list Event) : Sys W :=
  mkSys (ep s) (world s) (chans s) (tickers s) (trace s ++ evs).

(** Lines 220-224 of [connect]: the world in which [Accept] is then called,
    and what closing the connection held so far adds to the trace. *)
Definition retire {W} `{Net W} (s : Sys W) : W * list Event :=
  match conn (ep s) with
  | Some c =>
      let '(tmpErr, w1) := conn_Close c (world s) in
      (w1, EvConnClose c ::
           match tmpErr with
           | Some e => [EvLogError "error closing socket val connection during connect" e]
           | None => []
           end)
  | None => (world s, [])
  end.

(** What [connect] returns for what [Accept] returned. *)
Definition connect_result (c' : option Conn) (err : option error) : bool * option error :=
  match err with
  | Some e => (false, Some e)
  | None => (match c' with Some _ => false | None => true end, None)
  end.

(** The exchange of a request for a response as the specification words it:
    under the mutex, a write, then a read unless the write failed, and the
    response or the first error.  [exchange req s r s'] relates the system
    before the call to the result and to the system after it. *)
Inductive exchange {W} `{Net W} (req : option RemoteSignerMsg) (s : Sys W)
  : option RemoteSignerMsg * option error → Sys W → Prop :=
| exchange_write_failed e s1 :
    writeMessage req (logged s [EvLock]) = (Done (Some e), s1) →
    exchange req s (None, Some e) (logged s1 [EvUnlock])
| exchange_read_failed s1 res e s2 :
    writeMessage req (logged s [EvLock]) = (Done None, s1) →
    readMessage s1 = (Done (res, Some e), s2) →
    exchange req s (None, Some e) (logged s2 [EvUnlock])
| exchange_answered s1 res s2 :
    writeMessage req (logged s [EvLock]) = (Done None, s1) →
    readMessage s1 = (Done (res, None), s2) →
    exchange req s (res, None) (logged s2 [EvUnlock]).

(** Lines 141-148 of [Close] and the deferred unlock, from the system made of
    the five components. *)
Definition Close_listener {W} `{Net W} (ve : Endpoint) (w : W) (ch : list bool)
    (tk : list Z) (tr : list Event) : result (option error) * Sys W :=
  match listener ve with
  | Some l =>
      let '(err, w2) := listener_Close l w in
      (Done err,
       mkSys ve w2 ch tk
         (tr ++ EvListenerClose l ::
                match err with
                | Some e => [EvLogError "Closing Listener" e]
                | None => []
                end ++ [EvUnlock]))
  | None => (Done None, mkSys ve w ch tk (tr ++ [EvUnlock]))
  end.

(** The cancellation channel, when the endpoint has one, is open. *)
Definition chan_inv {W} (s : Sys W) : Prop :=
  ∀ ch, cancelPingCh (ep s) = Some ch → chans s !! ch = Some false.

(** [OnStop] called [n] times in a row. *)
Fixpoint stops {W} `{Net W} (n : nat) : M W unit :=
  match n with
  | O => ret tt
  | S n' => OnStop ;; stops n'
  end.

(** Sample endpoints: one just constructed around listener 1, and one that
    holds connection 7 and has its ticker. *)
Definition ve_fresh : Endpoint := NewSignerListenerEndpoint (Some 1%nat).
Definition ve_held : Endpoint :=
  set_pingTicker (Some 0%nat) (set_conn (Some 7%nat) ve_fresh).

(** More classes of events. *)
Definition is_EvConnClose (ev : Event) : bool :=
  match ev with EvConnClose _ => true | _ => false end.
Definition is_EvTickerStop (ev : Event) : bool :=
  match ev with EvTickerStop _ => true | _ => false end.
Definition is_mutex_event (ev : Event) : bool :=
  match ev with EvLock | EvUnlock => true | _ => false end.

(** The events of an exchange: the mutex and the two codec calls. *)
Definition exchange_event (ev : Event) : bool :=
  match ev with
  | EvLock | EvUnlock | EvWrite _ _ | EvRead _ => true
  | _ => false
  end.

(** The events of a tick of the heartbeat: those of an exchange, those of
    [connect], and log lines. *)
Definition tick_event (ev : Event) : bool :=
  match ev with
  | EvLock | EvUnlock | EvWrite _ _ | EvRead _
  | EvConnClose _ | EvAccept _ | EvLogError _ _ | EvLogInfo _ => true
  | _ => false
  end.

(** The events of the heartbeat goroutine: those of its ticks and the stop of
    the ticker. *)
Definition goroutine_event (ev : Event) : bool :=
  tick_event ev || is_EvTickerStop ev.

(** [s'] has the trace of [s] followed by events that all satisfy [P]. *)
Definition extends_by {W} (P : Event → bool) (s s' : Sys W) : Prop :=
  ∃ evs, trace s' = trace s ++ evs ∧ Forall (λ ev, P ev = true) evs.

(** The fields of the endpoint other than its connection are the same in
    [s] and [s'], no channel has been made or closed, and no ticker has been
    made.  (Whether a ticker has been stopped is not in the state: see the
    event [EvTickerStop].) *)
Definition same_config {W} (s s' : Sys W) : Prop :=
  listener (ep s') = listener (ep s) ∧
  cancelPingCh (ep s') = cancelPingCh (ep s) ∧
  pingTicker (ep s') = pingTicker (ep s) ∧
  heartbeatPeriod (ep s') = heartbeatPeriod (ep s) ∧
  chans s' = chans s ∧
  tickers s' = tickers s.

(** The listener and the heartbeat period are the same in [s] and [s']. *)
Definition same_wiring {W} (s s' : Sys W) : Prop :=
  listener (ep s') = listener (ep s) ∧
  heartbeatPeriod (ep s') = heartbeatPeriod (ep s).

(** How many of the cases are ticks. *)
Fixpoint ticks (cases : list select_case) : nat :=
  match cases with
  | [] => 0
  | Tick :: cases' => S (ticks cases')
  | Cancel :: cases' => ticks cases'
  end.

(** ** Traces and systems *)

Lemma count_app p tr1 tr2 : count p (tr1 ++ tr2) = (count p tr1 + count p tr2)%nat.
Proof. induction tr1 as [|ev tr1 IH]; cbn; [reflexivity|]. rewrite IH. lia. Qed.

Lemma logged_logged {W} (s : Sys W) evs1 evs2 :
  logged (logged s evs1) evs2 = logged s (evs1 ++ evs2).
Proof. unfold logged; cbn. now rewrite <- app_assoc. Qed.

Lemma logged_nil {W} (s : Sys W) : logged s [] = s.
Proof. destruct s; unfold logged; cbn. now rewrite app_nil_r. Qed.

Lemma is_ErrUnexpectedResponse_spec err :
  is_ErrUnexpectedResponse err = true ↔ err = ErrUnexpectedResponse.
Proof. destruct err; cbn; split; intros; congruence. Qed.

(** The sentinel comes out of lines 190-192 and 204-206 only if it went in. *)
Lemma wrap_timeout_unexpected e err :
  wrap_timeout e = Some err →
  is_ErrUnexpectedResponse err = true →
  e = Some ErrUnexpectedResponse.
Proof.
  destruct e as [[| | t | c t | io]|]; cbn; try discriminate;
    try (intros [= <-]; cbn; congruence).
  destruct (io_Timeout io); intros [= <-]; cbn; discriminate.
Qed.

Lemma wrap_timeout_None e : wrap_timeout e = None ↔ e = None.
Proof.
  destruct e as [[| | t | c t | io]|]; cbn; try (split; discriminate); [|tauto].
  destruct (io_Timeout io); split; discriminate.
Qed.

Lemma wrap_timeout_is_Some e : ∃ err, wrap_timeout (Some e) = Some err.
Proof.
  destruct (wrap_timeout (Some e)) as [err|] eqn:Hw; [eauto|].
  apply (proj1 (wrap_timeout_None _)) in Hw. discriminate.
Qed.

(** ** What each method does, by cases on what the collaborators answer *)

Section Specs.
Context {W : Type} `{Net W}.

#[local] Arguments wrap_timeout : simpl never.

Lemma connect_spec (s : Sys W) l c' err w2 :
  listener (ep s) = Some l →
  listener_Accept l (retire s).1 = (c', err, w2) →
  connect s =
    (Done (connect_result c' err),
     mkSys (set_conn c' (ep s)) w2 (chans s) (tickers s)
       (trace s ++ EvLock :: (retire s).2 ++ [EvAccept l; EvUnlock])).
Proof.
  destruct s as [ve w ch tk tr]; cbn. intros Hl Hacc.
  unfold connect, retire, with_mtx, bind, get_ep, call, emit, ret in *; cbn in *.
  rewrite Hl.
  destruct (conn ve) as [c|]; cbn in *.
  - destruct (conn_Close c w) as [tmpErr w1]; cbn in *.
    destruct tmpErr as [e|]; cbn in *; rewrite Hacc; cbn;
      destruct err as [e'|], c' as [c''|]; cbn;
      repeat rewrite <- app_assoc; reflexivity.
  - rewrite Hacc; cbn.
    destruct err as [e'|], c' as [c''|]; cbn;
      repeat rewrite <- app_assoc; reflexivity.
Qed.

Lemma connect_nil_listener (s : Sys W) :
  listener (ep s) = None →
  ∃ why, connect s =
    (Panicked why,
     mkSys (ep s) (retire s).1 (chans s) (tickers s)
       (trace s ++ EvLock :: (retire s).2 ++ [EvUnlock])).
Proof.
  destruct s as [ve w ch tk tr]; cbn. intros Hl. eexists.
  unfold connect, retire, with_mtx, bind, get_ep, call, emit, ret, panic; cbn.
  rewrite Hl.
  destruct (conn ve) as [c|]; cbn.
  - destruct (conn_Close c w) as [tmpErr w1]; cbn.
    destruct tmpErr as [e|]; cbn; repeat rewrite <- app_assoc; reflexivity.
  - repeat rewrite <- app_assoc; reflexivity.
Qed.

Lemma writeMessage_cases (s : Sys W) msg :
  match conn (ep s) with
  | None => writeMessage msg s = (Done (Some (Errorf "endpoint is not connected")), s)
  | Some c =>
      let '(err, w1) := cdc_MarshalBinaryLengthPrefixedWriter c msg (world s) in
      writeMessage msg s =
        (Done (wrap_timeout err),
         mkSys (ep s) w1 (chans s) (tickers s) (trace s ++ [EvWrite c msg]))
  end.
Proof.
  destruct s as [ve w ch tk tr]; cbn.
  unfold writeMessage, bind, get_ep, call, ret; cbn.
  destruct (conn ve) as [c|]; cbn; [|reflexivity].
  destruct (cdc_MarshalBinaryLengthPrefixedWriter c msg w) as [err w1]; reflexivity.
Qed.

Lemma readMessage_cases (s : Sys W) :
  match conn (ep s) with
  | None => ∃ why, readMessage s = (Panicked why, s)
  | Some c =>
      let '(msg, err, w1) :=
        cdc_UnmarshalBinaryLengthPrefixedReader c maxRemoteSignerMsgSize (world s) in
      readMessage s =
        (Done (msg, wrap_timeout err),
         mkSys (ep s) w1 (chans s) (tickers s) (trace s ++ [EvRead c]))
  end.
Proof.
  destruct s as [ve w ch tk tr]; cbn.
  unfold readMessage, bind, get_ep, call, ret, panic; cbn.
  destruct (conn ve) as [c|]; cbn; [|eexists; reflexivity].
  destruct (cdc_UnmarshalBinaryLengthPrefixedReader c maxRemoteSignerMsgSize w)
    as [[msg err] w1]; reflexivity.
Qed.

Lemma SendRequest_cases (s : Sys W) req :
  match conn (ep s) with
  | None =>
      SendRequest req s =
        (Done (None, Some (Errorf "endpoint is not connected")),
         logged s [EvLock; EvUnlock])
  | Some c =>
      let '(werr, w1) := cdc_MarshalBinaryLengthPrefixedWriter c req (world s) in
      match werr with
      | Some io =>
          SendRequest req s =
            (Done (None, wrap_timeout (Some io)),
             mkSys (ep s) w1 (chans s) (tickers s)
               (trace s ++ [EvLock; EvWrite c req; EvUnlock]))
      | None =>
          let '(res, rerr, w2) :=
            cdc_UnmarshalBinaryLengthPrefixedReader c maxRemoteSignerMsgSize w1 in
          SendRequest req s =
            (Done match wrap_timeout rerr with
                  | Some e => (None, Some e)
                  | None => (res, None)
                  end,
             mkSys (ep s) w2 (chans s) (tickers s)
               (trace s ++ [EvLock; EvWrite c req; EvRead c; EvUnlock]))
      end
  end.
Proof.
  destruct s as [ve w ch tk tr]; cbn.
  unfold SendRequest, with_mtx, writeMessage, readMessage, logged,
    bind, get_ep, call, emit, ret; cbn.
  destruct (conn ve) as [c|] eqn:Hc; cbn.
  - destruct (cdc_MarshalBinaryLengthPrefixedWriter c req w) as [[io|] w1]; cbn.
    + destruct (wrap_timeout_is_Some io) as [e ->]. cbn.
      repeat rewrite <- app_assoc; reflexivity.
    + change (wrap_timeout None) with (@None error). cbn. rewrite Hc; cbn.
      destruct (cdc_UnmarshalBinaryLengthPrefixedReader c maxRemoteSignerMsgSize w1)
        as [[res rerr] w2]; cbn.
      destruct (wrap_timeout rerr) as [e|]; cbn;
        repeat rewrite <- app_assoc; reflexivity.
  - repeat rewrite <- app_assoc; reflexivity.
Qed.

(** [SendRequest] always returns, leaves the endpoint, the channels and the
    tickers as they were, and its events lie between a lock and an unlock. *)
Lemma SendRequest_frame (s : Sys W) req :
  ∃ r s' mid,
    SendRequest req s = (Done r, s') ∧
    ep s' = ep s ∧ chans s' = chans s ∧ tickers s' = tickers s ∧
    trace s' = trace s ++ EvLock :: mid ++ [EvUnlock] ∧
    match conn (ep s) with
    | None => mid = []
    | Some c => mid = [EvWrite c req] ∨ mid = [EvWrite c req; EvRead c]
    end.
Proof.
  pose proof (SendRequest_cases s req) as Hc.
  destruct (conn (ep s)) as [c|].
  - destruct (cdc_MarshalBinaryLengthPrefixedWriter c req (world s)) as [[io|] w1].
    + eexists _, _, [EvWrite c req]. rewrite Hc; cbn. repeat split; auto.
    + destruct (cdc_UnmarshalBinaryLengthPrefixedReader c maxRemoteSignerMsgSize w1)
        as [[res rerr] w2].
      eexists _, _, [EvWrite c req; EvRead c]. rewrite Hc; cbn. repeat split; auto.
  - eexists _, _, []. rewrite Hc; cbn. repeat split; auto.
Qed.

(** [SendRequest] returns the sentinel of line 93 as its error only on a
    connection, and only when the codec returned that very value, for the
    write or for the read. *)
Lemma SendRequest_unexpected_inv (s s' : Sys W) req res e :
  SendRequest req s = (Done (res, Some e), s') →
  is_ErrUnexpectedResponse e = true →
  ∃ c, conn (ep s) = Some c ∧
       ((cdc_MarshalBinaryLengthPrefixedWriter c req (world s)).1
          = Some ErrUnexpectedResponse ∨
        ∃ w1, (cdc_MarshalBinaryLengthPrefixedWriter c req (world s)) = (None, w1) ∧
              (cdc_UnmarshalBinaryLengthPrefixedReader c maxRemoteSignerMsgSize w1).1.2
                = Some ErrUnexpectedResponse).
Proof.
  pose proof (SendRequest_cases s req) as Hc.
  destruct (conn (ep s)) as [c|].
  - destruct (cdc_MarshalBinaryLengthPrefixedWriter c req (world s))
      as [[io|] w1] eqn:Hm.
    + rewrite Hc. intros Hx He. injection Hx as _ Hw _.
      exists c. split; [reflexivity|]. left. rewrite Hm. cbn.
      exact (wrap_timeout_unexpected _ _ Hw He).
    + destruct (cdc_UnmarshalBinaryLengthPrefixedReader c maxRemoteSignerMsgSize w1)
        as [[res' rerr] w2] eqn:Hr.
      rewrite Hc. destruct (wrap_timeout rerr) as [e'|] eqn:Hw; [|discriminate].
      intros Hx He. injection Hx as _ <- _.
      exists c. split; [reflexivity|]. right. exists w1. split; [exact Hm|].
      rewrite Hr. cbn. exact (wrap_timeout_unexpected _ _ Hw He).
  - rewrite Hc. intros [= _ <- _]. discriminate.
Qed.

(** A successful [SendRequest] wrote one frame and read one frame on the
    connection held, under the mutex. *)
Lemma SendRequest_success_trace (s s' : Sys W) req res :
  SendRequest req s = (Done (res, None), s') →
  ∃ c, conn (ep s) = Some c ∧
       trace s' = trace s ++ [EvLock; EvWrite c req; EvRead c; EvUnlock].
Proof.
  pose proof (SendRequest_cases s req) as Hc.
  destruct (conn (ep s)) as [c|].
  - destruct (cdc_MarshalBinaryLengthPrefixedWriter c req (world s)) as [[io|] w1].
    + rewrite Hc. destruct (wrap_timeout_is_Some io) as [e ->]. discriminate.
    + destruct (cdc_UnmarshalBinaryLengthPrefixedReader c maxRemoteSignerMsgSize w1)
        as [[res' rerr] w2].
      rewrite Hc. destruct (wrap_timeout rerr) as [e'|]; [discriminate|].
      intros [= _ <-]. exists c. split; reflexivity.
  - rewrite Hc. discriminate.
Qed.

#[local] Arguments writeMessage : simpl never.
#[local] Arguments readMessage : simpl never.
#[local] Arguments SendRequest : simpl never.
#[local] Arguments ping : simpl never.
#[local] Arguments connect : simpl never.
#[local] Arguments Close : simpl never.

Lemma ping_eq (s : Sys W) :
  ping s =
    match SendRequest (Some PingRequest) s with
    | (Done (response, Some e), s') => (Done (Some e), s')
    | (Done (response, None), s') =>
        (Done (if is_PingResponse response then None else Some ErrUnexpectedResponse), s')
    | (Panicked why, s') => (Panicked why, s')
    end.
Proof.
  unfold ping, bind.
  destruct (SendRequest (Some PingRequest) s) as [[[response [e|]]|why] s']; cbn;
    try reflexivity.
  destruct (is_PingResponse response); reflexivity.
Qed.

(** [ping] always returns, touches neither the endpoint nor the channels and
    tickers, and calls [Accept] on nothing. *)
Lemma ping_frame (s : Sys W) :
  ∃ r s', ping s = (Done r, s') ∧ ep s' = ep s ∧ chans s' = chans s ∧
          tickers s' = tickers s ∧
          ∃ evs, trace s' = trace s ++ evs ∧ count is_EvAccept evs = 0%nat.
Proof.
  rewrite ping_eq.
  destruct (SendRequest_frame s (Some PingRequest))
    as (r & s' & mid & -> & Hep & Hch & Htk & Htr & Hmid).
  assert (Hcount : count is_EvAccept (EvLock :: mid ++ [EvUnlock]) = 0%nat).
  { destruct (conn (ep s)) as [c|]; [destruct Hmid as [->| ->]|subst mid]; reflexivity. }
  destruct r as [response [e|]]; eauto 10.
Qed.

(** C4. For every request, [SendRequest] returns, and what it returns is the
    exchange of the specification: the write and then the read happen between
    the lock and the unlock of the mutex; when the write fails its error is
    returned with no response and nothing is read; when the read fails its
    error is returned with no response; otherwise the decoded response is
    returned with no error. *)
Theorem SendRequest_write_then_read (s : Sys W) req :
  ∃ r s' mid,
    SendRequest req s = (Done r, s') ∧
    exchange req s r s' ∧
    trace s' = trace s ++ EvLock :: mid ++ [EvUnlock] ∧
    (mid = [] ∨ ∃ c, mid = [EvWrite c req] ∨ mid = [EvWrite c req; EvRead c]) ∧
    (∀ e, r.2 = Some e → r.1 = None) ∧
    (∀ e s1, writeMessage req (logged s [EvLock]) = (Done (Some e), s1) →
             r = (None, Some e) ∧ s' = logged s1 [EvUnlock] ∧
             count is_EvRead mid = 0%nat).
Proof.
  pose proof (SendRequest_cases s req) as Hc.
  pose proof (writeMessage_cases (logged s [EvLock]) req) as Hw.
  cbn in Hw.
  destruct (conn (ep s)) as [c|] eqn:Hconn.
  - destruct (cdc_MarshalBinaryLengthPrefixedWriter c req (world s)) as [[io|] w1].
    + destruct (wrap_timeout (Some io)) as [e|] eqn:He;
        [|apply (proj1 (wrap_timeout_None _)) in He; discriminate].
      eexists _, _, [EvWrite c req]. rewrite Hc.
      split; [reflexivity|]. split; [|split; [reflexivity|split; [eauto|split]]].
      * eapply (exchange_write_failed req s e) in Hw as Hex.
        unfold logged in Hex; cbn in Hex.
        repeat rewrite <- app_assoc in Hex. exact Hex.
      * intros e0 [= <-]. reflexivity.
      * intros e0 s1 Hw'. rewrite Hw in Hw'. injection Hw' as <- <-.
        unfold logged; cbn. repeat rewrite <- app_assoc. auto.
    + change (wrap_timeout None) with (@None error) in Hw.
      pose proof (readMessage_cases
        (mkSys (ep s) w1 (chans s) (tickers s) ((trace s ++ [EvLock]) ++ [EvWrite c req])))
        as Hr.
      cbn in Hr. rewrite Hconn in Hr.
      destruct (cdc_UnmarshalBinaryLengthPrefixedReader c maxRemoteSignerMsgSize w1)
        as [[res rerr] w2].
      eexists _, _, [EvWrite c req; EvRead c]. rewrite Hc.
      split; [reflexivity|]. split; [|split; [reflexivity|split; [eauto|split]]].
      * destruct (wrap_timeout rerr) as [e|] eqn:He.
        -- pose proof (exchange_read_failed req s _ _ _ _ Hw Hr) as Hex.
           unfold logged in Hex; cbn in Hex.
           repeat rewrite <- app_assoc in Hex. exact Hex.
        -- pose proof (exchange_answered req s _ _ _ Hw Hr) as Hex.
           unfold logged in Hex; cbn in Hex.
           repeat rewrite <- app_assoc in Hex. exact Hex.
      * destruct (wrap_timeout rerr); intros e0 [= <-]; reflexivity.
      * intros e0 s1 Hw'. rewrite Hw in Hw'. discriminate.
  - eexists _, _, []. rewrite Hc.
    split; [reflexivity|]. split; [|split; [reflexivity|split; [auto|split]]].
    + pose proof (exchange_write_failed req s _ _ Hw) as Hex.
      rewrite logged_logged in Hex. exact Hex.
    + intros e0 [= <-]. reflexivity.
    + intros e0 s1 Hw'. rewrite Hw in Hw'. injection Hw' as <- <-.
      rewrite logged_logged. auto.
Qed.

(** C8. With no connection held, [writeMessage] fails with the not-connected
    error, and so [SendRequest] returns that error and no response to its
    caller; between the lock and the unlock it neither writes nor reads, and
    the world is left as it was. *)
Theorem not_connected_is_surfaced (s : Sys W) msg :
  conn (ep s) = None →
  writeMessage msg s = (Done (Some (Errorf "endpoint is not connected")), s) ∧
  SendRequest msg s =
    (Done (None, Some (Errorf "endpoint is not connected")),
     logged s [EvLock; EvUnlock]).
Proof.
  intros Hconn.
  pose proof (writeMessage_cases s msg) as Hw.
  pose proof (SendRequest_cases s msg) as Hs.
  rewrite Hconn in Hw, Hs. auto.
Qed.

#[local] Arguments on_tick : simpl never.

Lemma on_tick_eq (s : Sys W) :
  on_tick s =
    match ping s with
    | (Done (Some e), s1) =>
        if is_ErrUnexpectedResponse e
        then (Done Terminated, logged s1 [EvLogError "Ping" e])
        else
          match connect (logged s1 [EvLogError "Ping" e]) with
          | (Done (_, Some e'), s2) =>
              (Done Probing,
               logged s2 [EvLogError "Reconnecting to remote signer failed" e'])
          | (Done (true, None), s2) =>
              (Done Terminated, logged s2 [EvLogInfo "listener is closing"])
          | (Done (false, None), s2) =>
              (Done Probing, logged s2 [EvLogInfo "Re-created connection to remote signer"])
          | (Panicked why, s2) => (Panicked why, s2)
          end
    | (Done None, s1) => (Done Probing, s1)
    | (Panicked why, s1) => (Panicked why, s1)
    end.
Proof.
  unfold on_tick, bind at 1.
  destruct (ping s) as [[[e|]|why] s1]; try reflexivity.
  unfold bind at 1, Logger_Error at 1, emit at 1.
  fold (logged s1 [EvLogError "Ping" e]).
  destruct (is_ErrUnexpectedResponse e); [reflexivity|].
  unfold bind at 1.
  destruct (connect _) as [[[[] [e'|]]|why] s2]; reflexivity.
Qed.

Lemma heartbeat_iter_Tick (s : Sys W) t :
  pingTicker (ep s) = Some t → heartbeat_iter Tick s = on_tick s.
Proof.
  intros Ht. unfold heartbeat_iter, bind, get_ep. now rewrite Ht.
Qed.

Lemma heartbeat_cons (s : Sys W) c cases :
  heartbeat (c :: cases) s =
    match heartbeat_iter c s with
    | (Done Probing, s') => heartbeat cases s'
    | (Done Terminated, s') => (Done Terminated, s')
    | (Panicked why, s') => (Panicked why, s')
    end.
Proof.
  cbn [heartbeat]. unfold bind at 1.
  destruct (heartbeat_iter c s) as [[[]|] s']; reflexivity.
Qed.

Lemma retire_no_accept (s : Sys W) : count is_EvAccept (retire s).2 = 0%nat.
Proof.
  unfold retire. destruct (conn (ep s)) as [c|]; [|reflexivity].
  destruct (conn_Close c (world s)) as [[e|] w1]; reflexivity.
Qed.

Lemma retire_no_go (s : Sys W) : count is_EvGo (retire s).2 = 0%nat.
Proof.
  unfold retire. destruct (conn (ep s)) as [c|]; [|reflexivity].
  destruct (conn_Close c (world s)) as [[e|] w1]; reflexivity.
Qed.

(** When [connect] returns, it has called [Accept] once on the listener. *)
Lemma connect_Done_inv (s s' : Sys W) r :
  connect s = (Done r, s') →
  ∃ l c' err w2,
    listener (ep s) = Some l ∧
    listener_Accept l (retire s).1 = (c', err, w2) ∧
    r = connect_result c' err ∧
    s' = mkSys (set_conn c' (ep s)) w2 (chans s) (tickers s)
           (trace s ++ EvLock :: (retire s).2 ++ [EvAccept l; EvUnlock]).
Proof.
  intros Hc.
  destruct (listener (ep s)) as [l|] eqn:Hl.
  - destruct (listener_Accept l (retire s).1) as [[c' err] w2] eqn:Hacc.
    rewrite (connect_spec s l c' err w2 Hl Hacc) in Hc.
    injection Hc as <- <-. eauto 10.
  - destruct (connect_nil_listener s Hl) as [why Hp]. congruence.
Qed.

Lemma connect_one_accept (s s' : Sys W) r :
  connect s = (Done r, s') →
  count is_EvAccept (trace s') = S (count is_EvAccept (trace s)).
Proof.
  intros Hc. apply connect_Done_inv in Hc as (l & c' & err & w2 & _ & _ & _ & ->).
  cbn [trace].
  change (EvLock :: (retire s).2 ++ [EvAccept l; EvUnlock])
    with ([EvLock] ++ (retire s).2 ++ [EvAccept l; EvUnlock]).
  rewrite !count_app, retire_no_accept. cbn. lia.
Qed.

(** C2. On a tick on which the probe fails with the unexpected-response
    error, the goroutine logs the error and returns: the loop is terminated
    whatever cases would fire afterwards, and between the tick and the return
    no [Accept] is called, so [connect] is not called again. *)
Theorem heartbeat_unexpected_response_is_fatal (s s1 : Sys W) t cases :
  pingTicker (ep s) = Some t →
  ping s = (Done (Some ErrUnexpectedResponse), s1) →
  heartbeat (Tick :: cases) s =
    (Done Terminated, logged s1 [EvLogError "Ping" ErrUnexpectedResponse]) ∧
  count is_EvAccept (trace (logged s1 [EvLogError "Ping" ErrUnexpectedResponse]))
    = count is_EvAccept (trace s).
Proof.
  intros Ht Hp. split.
  - rewrite heartbeat_cons, (heartbeat_iter_Tick s t Ht), on_tick_eq, Hp.
    reflexivity.
  - destruct (ping_frame s) as (r & s' & Hp' & _ & _ & _ & evs & Htr & Hevs).
    rewrite Hp in Hp'. injection Hp' as <- <-.
    cbn [logged trace]. rewrite Htr, !count_app, Hevs. cbn. lia.
Qed.

(** C3. On a tick on which the probe fails with an error other than the
    unexpected-response error, the goroutine calls [connect] once.  If
    [connect] returns an error the loop stays in Probing and goes on with the
    next case; if it reports the listener closed the loop is terminated;
    otherwise the loop stays in Probing and the endpoint holds the connection
    just accepted.  In each case [Accept] has been called once more than
    before the tick. *)
Theorem heartbeat_transport_error_reconnects_once (s s1 : Sys W) t e cases :
  pingTicker (ep s) = Some t →
  ping s = (Done (Some e), s1) →
  is_ErrUnexpectedResponse e = false →
  (∀ closed e' s2,
     connect (logged s1 [EvLogError "Ping" e]) = (Done (closed, Some e'), s2) →
     let s3 := logged s2 [EvLogError "Reconnecting to remote signer failed" e'] in
     heartbeat_iter Tick s = (Done Probing, s3) ∧
     heartbeat (Tick :: cases) s = heartbeat cases s3 ∧
     count is_EvAccept (trace s3) = S (count is_EvAccept (trace s))) ∧
  (∀ s2,
     connect (logged s1 [EvLogError "Ping" e]) = (Done (true, None), s2) →
     let s3 := logged s2 [EvLogInfo "listener is closing"] in
     heartbeat_iter Tick s = (Done Terminated, s3) ∧
     heartbeat (Tick :: cases) s = (Done Terminated, s3) ∧
     count is_EvAccept (trace s3) = S (count is_EvAccept (trace s))) ∧
  (∀ s2,
     connect (logged s1 [EvLogError "Ping" e]) = (Done (false, None), s2) →
     let s3 := logged s2 [EvLogInfo "Re-created connection to remote signer"] in
     heartbeat_iter Tick s = (Done Probing, s3) ∧
     heartbeat (Tick :: cases) s = heartbeat cases s3 ∧
     (∃ c', conn (ep s3) = Some c') ∧
     count is_EvAccept (trace s3) = S (count is_EvAccept (trace s))).
Proof.
  intros Ht Hp He.
  assert (Hiter : heartbeat_iter Tick s =
            match connect (logged s1 [EvLogError "Ping" e]) with
            | (Done (_, Some e'), s2) =>
                (Done Probing,
                 logged s2 [EvLogError "Reconnecting to remote signer failed" e'])
            | (Done (true, None), s2) =>
                (Done Terminated, logged s2 [EvLogInfo "listener is closing"])
            | (Done (false, None), s2) =>
                (Done Probing, logged s2 [EvLogInfo "Re-created connection to remote signer"])
            | (Panicked why, s2) => (Panicked why, s2)
            end).
  { rewrite (heartbeat_iter_Tick s t Ht), on_tick_eq, Hp, He. reflexivity. }
  assert (Hacc : ∀ r s2 ev,
            connect (logged s1 [EvLogError "Ping" e]) = (Done r, s2) →
            is_EvAccept ev = false →
            count is_EvAccept (trace (logged s2 [ev])) = S (count is_EvAccept (trace s))).
  { intros r s2 ev Hc Hev. apply connect_one_accept in Hc.
    destruct (ping_frame s) as (r' & s' & Hp' & _ & _ & _ & evs & Htr & Hevs).
    rewrite Hp in Hp'. injection Hp' as <- <-.
    cbn [logged trace] in *. rewrite count_app, Hc, Htr, !count_app, Hevs.
    cbn. rewrite Hev. lia. }
  split; [|split].
  - intros closed e' s2 Hc s3. subst s3.
    rewrite heartbeat_cons, Hiter, Hc.
    destruct closed; (split; [reflexivity|split; [reflexivity|]]);
      (eapply Hacc; [eassumption|reflexivity]).
  - intros s2 Hc s3. subst s3.
    rewrite heartbeat_cons, Hiter, Hc.
    split; [reflexivity|split; [reflexivity|]].
    eapply Hacc; [eassumption|reflexivity].
  - intros s2 Hc s3. subst s3.
    rewrite heartbeat_cons, Hiter, Hc.
    split; [reflexivity|split; [reflexivity|split]].
    + apply connect_Done_inv in Hc as (l & c' & err & w2 & _ & _ & Hr & ->).
      cbn. destruct err as [io|]; [discriminate|].
      destruct c' as [c''|]; [eauto|discriminate].
    + eapply Hacc; [eassumption|reflexivity].
Qed.


(** C5. A [connect] made while a connection is held closes that connection
    first, then calls [Accept] in the world the close has left, and then
    holds whatever connection [Accept] returned.  A failure of the close is
    logged; what [connect] returns depends on the answer of [Accept] alone. *)
Theorem connect_retires_old_connection_first (s : Sys W) c l tmpErr w1 c' err w2 :
  conn (ep s) = Some c →
  listener (ep s) = Some l →
  conn_Close c (world s) = (tmpErr, w1) →
  listener_Accept l w1 = (c', err, w2) →
  connect s =
    (Done (connect_result c' err),
     mkSys (set_conn c' (ep s)) w2 (chans s) (tickers s)
       (trace s ++ [EvLock; EvConnClose c] ++
          match tmpErr with
          | Some e => [EvLogError "error closing socket val connection during connect" e]
          | None => []
          end ++ [EvAccept l; EvUnlock])) ∧
  (err = None → (connect_result c' err).2 = None).
Proof.
  intros Hc Hl Hclose Hacc.
  assert (Hret : retire s =
            (w1, EvConnClose c ::
                 match tmpErr with
                 | Some e => [EvLogError "error closing socket val connection during connect" e]
                 | None => []
                 end)).
  { unfold retire. rewrite Hc, Hclose. reflexivity. }
  split.
  - rewrite (connect_spec s l c' err w2 Hl); rewrite Hret; [reflexivity|exact Hacc].
  - intros ->. reflexivity.
Qed.


Lemma Close_cases (s : Sys W) :
  match conn (ep s) with
  | Some c =>
      let '(err, w1) := conn_Close c (world s) in
      match err with
      | Some e =>
          Close s =
            (Done (Some e),
             mkSys (ep s) w1 (chans s) (tickers s)
               (trace s ++ [EvLock; EvConnClose c;
                            EvLogError "Closing connection" e; EvUnlock]))
      | None =>
          Close s =
            Close_listener (set_conn None (ep s)) w1 (chans s) (tickers s)
              (trace s ++ [EvLock; EvConnClose c])
      end
  | None =>
      Close s =
        Close_listener (ep s) (world s) (chans s) (tickers s) (trace s ++ [EvLock])
  end.
Proof.
  destruct s as [ve w ch tk tr]; cbn.
  unfold Close, Close_listener, with_mtx, bind, get_ep, modify_ep, call, emit, ret,
    Logger_Error; cbn.
  destruct (conn ve) as [c|]; cbn.
  - destruct (conn_Close c w) as [[e|] w1]; cbn.
    + repeat rewrite <- app_assoc; reflexivity.
    + destruct (listener ve) as [l|]; cbn.
      * destruct (listener_Close l w1) as [[e|] w2]; cbn;
          repeat rewrite <- app_assoc; reflexivity.
      * repeat rewrite <- app_assoc; reflexivity.
  - destruct (listener ve) as [l|]; cbn.
    + destruct (listener_Close l w) as [[e|] w2]; cbn;
        repeat rewrite <- app_assoc; reflexivity.
    + repeat rewrite <- app_assoc; reflexivity.
Qed.

Lemma Close_listener_frame ve (w : W) ch tk tr :
  ∃ r w' evs,
    Close_listener ve w ch tk tr = (Done r, mkSys ve w' ch tk (tr ++ evs)) ∧
    count is_EvCloseChan evs = 0%nat.
Proof.
  unfold Close_listener. destruct (listener ve) as [l|].
  - destruct (listener_Close l w) as [[e|] w2]; eexists _, _, _; split; reflexivity.
  - eexists _, _, _; split; reflexivity.
Qed.

(** [Close] always returns; it leaves the cancellation channel, the channels
    and the tickers alone. *)
Lemma Close_frame (s : Sys W) :
  ∃ r s' evs,
    Close s = (Done r, s') ∧
    cancelPingCh (ep s') = cancelPingCh (ep s) ∧
    chans s' = chans s ∧
    trace s' = trace s ++ evs ∧
    count is_EvCloseChan evs = 0%nat.
Proof.
  pose proof (Close_cases s) as Hc.
  destruct (conn (ep s)) as [c|].
  - destruct (conn_Close c (world s)) as [[e|] w1].
    + rewrite Hc. eexists _, _, _. repeat split; reflexivity.
    + destruct (Close_listener_frame (set_conn None (ep s)) w1 (chans s) (tickers s)
                  (trace s ++ [EvLock; EvConnClose c])) as (r & w' & evs & Hl & Hn).
      rewrite Hc, Hl. exists r. eexists. exists ([EvLock; EvConnClose c] ++ evs).
      cbn [ep chans trace]. rewrite <- app_assoc.
      repeat split; try reflexivity. rewrite count_app, Hn. reflexivity.
  - destruct (Close_listener_frame (ep s) (world s) (chans s) (tickers s)
                (trace s ++ [EvLock])) as (r & w' & evs & Hl & Hn).
    rewrite Hc, Hl. exists r. eexists. exists ([EvLock] ++ evs).
    cbn [ep chans trace]. rewrite <- app_assoc.
    repeat split; try reflexivity. rewrite count_app, Hn. reflexivity.
Qed.

(** C1, as amended. [Close] closes the connection first and goes on to the
    listener only when that close succeeded.  With a connection and a
    listener held: if the close of the connection returns an error, [Close]
    logs it and returns it, the connection stays in the endpoint and the
    close of the listener is not called; if the close of the connection
    succeeds, the reference is cleared and the close of the listener is
    called, its error, if any, being logged and returned. *)
Theorem Close_stops_at_first_failure (s : Sys W) c l :
  conn (ep s) = Some c →
  listener (ep s) = Some l →
  (∀ e w1,
     conn_Close c (world s) = (Some e, w1) →
     Close s =
       (Done (Some e),
        mkSys (ep s) w1 (chans s) (tickers s)
          (trace s ++ [EvLock; EvConnClose c;
                       EvLogError "Closing connection" e; EvUnlock])) ∧
     count is_EvListenerClose (trace (Close s).2) = count is_EvListenerClose (trace s)) ∧
  (∀ w1 err w2,
     conn_Close c (world s) = (None, w1) →
     listener_Close l w1 = (err, w2) →
     Close s =
       (Done err,
        mkSys (set_conn None (ep s)) w2 (chans s) (tickers s)
          (trace s ++ [EvLock; EvConnClose c; EvListenerClose l] ++
             match err with
             | Some e => [EvLogError "Closing Listener" e]
             | None => []
             end ++ [EvUnlock]))).
Proof.
  intros Hc Hl. pose proof (Close_cases s) as Hcl. rewrite Hc in Hcl.
  split.
  - intros e w1 Hclose. rewrite Hclose in Hcl. rewrite Hcl. split; [reflexivity|].
    cbn [snd trace]. rewrite count_app. cbn. lia.
  - intros w1 err w2 Hclose Hlc. rewrite Hclose in Hcl. rewrite Hcl.
    unfold Close_listener. cbn [listener set_conn]. rewrite Hl, Hlc.
    repeat rewrite <- app_assoc. reflexivity.
Qed.

Lemma connect_no_go (s s' : Sys W) r :
  connect s = (Done r, s') → count is_EvGo (trace s') = count is_EvGo (trace s).
Proof.
  intros Hc. apply connect_Done_inv in Hc as (l & c' & err & w2 & _ & _ & _ & ->).
  cbn [trace].
  change (EvLock :: (retire s).2 ++ [EvAccept l; EvUnlock])
    with ([EvLock] ++ (retire s).2 ++ [EvAccept l; EvUnlock]).
  rewrite !count_app, retire_no_go. cbn. lia.
Qed.

(** The system in which [OnStart] calls [time.NewTicker], lines 82-83: the
    channel has been made and stored. *)
Lemma OnStart_eq (s : Sys W) :
  OnStart s =
    match connect s with
    | (Done (_, Some e), s1) => (Done (Some e), logged s1 [EvLogError "OnStart" e])
    | (Done (true, None), s1) => (Done (Some (Errorf "listener is closed")), s1)
    | (Done (false, None), s1) =>
        if (heartbeatPeriod (ep s1) <=? 0)%Z
        then
          (Panicked "non-positive interval for NewTicker",
           mkSys (set_cancelPingCh (Some (length (chans s1))) (ep s1))
             (world s1) (chans s1 ++ [false]) (tickers s1)
             (trace s1 ++ [EvMakeChan (length (chans s1))]))
        else
          (Done None,
           mkSys (set_pingTicker (Some (length (tickers s1)))
                    (set_cancelPingCh (Some (length (chans s1))) (ep s1)))
             (world s1) (chans s1 ++ [false])
             (tickers s1 ++ [heartbeatPeriod (ep s1)])
             (trace s1 ++ [EvMakeChan (length (chans s1));
                           EvNewTicker (length (tickers s1)) (heartbeatPeriod (ep s1));
                           EvGo]))
    | (Panicked why, s1) => (Panicked why, s1)
    end.
Proof.
  unfold OnStart, bind at 1.
  destruct (connect s) as [[[[] [e|]]|why] s1]; try reflexivity.
  destruct s1 as [ve w ch tk tr].
  unfold bind, make_chan, modify_ep, get_ep, time_NewTicker, emit, ret; cbn.
  destruct (heartbeatPeriod ve <=? 0)%Z; cbn; [reflexivity|].
  repeat rewrite <- app_assoc. reflexivity.
Qed.

#[local] Arguments OnStart : simpl never.
#[local] Arguments OnStop : simpl never.

(** C6, as amended. [OnStart] begins with [connect].  If [connect] returns an
    error, [OnStart] logs and returns that error and no goroutine is started.
    If [connect] reports the listener closed, and so returns no error,
    [OnStart] returns an error of its own, [listener is closed], and no
    goroutine is started.  Otherwise [OnStart] makes the cancellation
    channel, which is open, and then: when the heartbeat period is positive,
    it starts a ticker of that period, starts the goroutine and returns no
    error; when the period is zero or negative, [time.NewTicker] panics, with
    the accepted connection and the channel in the endpoint, and no ticker
    and no goroutine is started. *)
Theorem OnStart_cases (s : Sys W) :
  (∀ closed e s1,
     connect s = (Done (closed, Some e), s1) →
     OnStart s = (Done (Some e), logged s1 [EvLogError "OnStart" e]) ∧
     count is_EvGo (trace (OnStart s).2) = count is_EvGo (trace s)) ∧
  (∀ s1,
     connect s = (Done (true, None), s1) →
     OnStart s = (Done (Some (Errorf "listener is closed")), s1) ∧
     count is_EvGo (trace (OnStart s).2) = count is_EvGo (trace s)) ∧
  (∀ s1,
     connect s = (Done (false, None), s1) →
     (0 < heartbeatPeriod (ep s))%Z →
     ∃ ch t s',
       OnStart s = (Done None, s') ∧
       cancelPingCh (ep s') = Some ch ∧ chans s' !! ch = Some false ∧
       pingTicker (ep s') = Some t ∧ tickers s' !! t = Some (heartbeatPeriod (ep s)) ∧
       conn (ep s') = conn (ep s1) ∧ world s' = world s1 ∧
       trace s' = trace s1 ++ [EvMakeChan ch;
                               EvNewTicker t (heartbeatPeriod (ep s)); EvGo] ∧
       count is_EvGo (trace s') = S (count is_EvGo (trace s))) ∧
  (∀ s1,
     connect s = (Done (false, None), s1) →
     (heartbeatPeriod (ep s) ≤ 0)%Z →
     ∃ why ch s',
       OnStart s = (Panicked why, s') ∧
       cancelPingCh (ep s') = Some ch ∧ chans s' !! ch = Some false ∧
       pingTicker (ep s') = pingTicker (ep s) ∧ tickers s' = tickers s ∧
       conn (ep s') = conn (ep s1) ∧ world s' = world s1 ∧
       trace s' = trace s1 ++ [EvMakeChan ch] ∧
       count is_EvGo (trace s') = count is_EvGo (trace s)).
Proof.
  split; [|split; [|split]].
  - intros closed e s1 Hc. rewrite OnStart_eq, Hc.
    split; [destruct closed; reflexivity|].
    apply connect_no_go in Hc.
    destruct closed; cbn [snd logged trace]; rewrite count_app, Hc; cbn; lia.
  - intros s1 Hc. rewrite OnStart_eq, Hc. split; [reflexivity|].
    cbn [snd]. eapply connect_no_go; eassumption.
  - intros s1 Hc Hpos. rewrite OnStart_eq, Hc.
    pose proof (connect_no_go _ _ _ Hc) as Hgo.
    apply connect_Done_inv in Hc as (l & c' & err & w2 & _ & _ & _ & ->).
    cbn [ep chans tickers trace world set_pingTicker set_cancelPingCh set_conn
         cancelPingCh pingTicker conn heartbeatPeriod] in *.
    destruct (Z.leb_spec (heartbeatPeriod (ep s)) 0) as [Hle|_]; [lia|].
    exists (length (chans s)), (length (tickers s)). eexists.
    split; [reflexivity|].
    cbn [ep chans tickers trace world set_pingTicker set_cancelPingCh set_conn
         cancelPingCh pingTicker conn heartbeatPeriod].
    repeat split.
    + now apply list_lookup_middle.
    + now apply list_lookup_middle.
    + rewrite count_app, Hgo. cbn. lia.
  - intros s1 Hc Hneg. rewrite OnStart_eq, Hc.
    pose proof (connect_no_go _ _ _ Hc) as Hgo.
    apply connect_Done_inv in Hc as (l & c' & err & w2 & _ & _ & _ & ->).
    cbn [ep chans tickers trace world set_pingTicker set_cancelPingCh set_conn
         cancelPingCh pingTicker conn heartbeatPeriod] in *.
    destruct (Z.leb_spec (heartbeatPeriod (ep s)) 0) as [_|Hlt]; [|lia].
    eexists. exists (length (chans s)). eexists.
    split; [reflexivity|].
    cbn [ep chans tickers trace world set_pingTicker set_cancelPingCh set_conn
         cancelPingCh pingTicker conn heartbeatPeriod].
    repeat split.
    + now apply list_lookup_middle.
    + rewrite count_app, Hgo. cbn. lia.
Qed.


(** The endpoint that [OnStart] leaves has an open cancellation channel, or
    none. *)
Lemma OnStart_chan_inv (s s' : Sys W) r :
  chan_inv s → OnStart s = (Done r, s') → chan_inv s'.
Proof.
  intros Hinv. rewrite OnStart_eq.
  destruct (connect s) as [[[closed [e|]]|why] s1] eqn:Hc; [| |discriminate].
  - apply connect_Done_inv in Hc as (l & c' & err & w2 & _ & _ & _ & ->).
    destruct closed; intros [= _ <-]; exact Hinv.
  - apply connect_Done_inv in Hc as (l & c' & err & w2 & _ & _ & _ & ->).
    destruct closed; [intros [= _ <-]; exact Hinv|].
    destruct (heartbeatPeriod _ <=? 0)%Z; [discriminate|].
    intros [= _ <-].
    intros ch [= <-]. cbn. now apply list_lookup_middle.
Qed.

(** [close] on a channel that is closed panics: the guard of line 121 and the
    assignment of line 123 are what keeps [OnStop] from it. *)
Lemma close_chan_twice_panics (s s1 : Sys W) ch :
  close_chan ch s = (Done tt, s1) →
  ∃ why, close_chan ch s1 = (Panicked why, s1).
Proof.
  unfold close_chan.
  destruct (chans s !! ch) as [[]|] eqn:Hch; try discriminate.
  intros [= <-]. cbn [chans].
  rewrite list_lookup_insert_eq by (eapply lookup_lt_Some; eassumption).
  eauto.
Qed.

Lemma OnStop_eq (s : Sys W) :
  OnStop s =
    match cancelPingCh (ep s) with
    | Some ch =>
        match chans s !! ch with
        | Some false =>
            let '(r, s') :=
              Close (mkSys (set_cancelPingCh None (ep s)) (world s)
                       (<[ch := true]> (chans s)) (tickers s)
                       (trace s ++ [EvCloseChan ch])) in
            (match r with Done _ => Done tt | Panicked why => Panicked why end, s')
        | _ => (Panicked "close of closed channel", s)
        end
    | None =>
        let '(r, s') := Close s in
        (match r with Done _ => Done tt | Panicked why => Panicked why end, s')
    end.
Proof.
  destruct s as [ve w ch tk tr].
  unfold OnStop, bind at 1 2, get_ep. cbn [ep chans].
  destruct (cancelPingCh ve) as [c|]; cbn.
  - unfold bind at 1, close_chan. cbn [chans].
    destruct (ch !! c) as [[]|]; try reflexivity.
    unfold modify_ep, bind. cbn.
    destruct (Close _) as [[r|why] s']; reflexivity.
  - unfold bind, ret. destruct (Close _) as [[r|why] s']; reflexivity.
Qed.

(** A stop of an endpoint without cancellation channel closes no channel. *)
Lemma OnStop_without_signal (s : Sys W) :
  cancelPingCh (ep s) = None →
  ∃ s', OnStop s = (Done tt, s') ∧ cancelPingCh (ep s') = None ∧
        chans s' = chans s ∧
        count is_EvCloseChan (trace s') = count is_EvCloseChan (trace s).
Proof.
  intros Hnil. rewrite OnStop_eq, Hnil.
  destruct (Close_frame s) as (r & s' & evs & -> & Hch & Hchans & Htr & Hn).
  exists s'. rewrite Hch, Htr, count_app, Hn. auto with arith.
Qed.

Lemma stops_without_signal n : ∀ s : Sys W,
  cancelPingCh (ep s) = None →
  ∃ s', stops n s = (Done tt, s') ∧ cancelPingCh (ep s') = None ∧
        chans s' = chans s ∧
        count is_EvCloseChan (trace s') = count is_EvCloseChan (trace s).
Proof.
  induction n as [|n IH]; intros s Hnil.
  - exists s. auto.
  - destruct (OnStop_without_signal s Hnil) as (s1 & Hs & Hnil1 & Hch1 & Hn1).
    destruct (IH s1 Hnil1) as (s2 & Hs2 & Hnil2 & Hch2 & Hn2).
    exists s2. cbn [stops]. unfold bind. rewrite Hs, Hs2.
    repeat split; congruence.
Qed.

(** C7. On an endpoint whose cancellation channel, if any, is open, [OnStop]
    returns; it closes the channel once when there is one and clears the
    field.  Every later [OnStop], however many, finds the field nil, closes
    no channel and does not panic. *)
Theorem OnStop_closes_signal_at_most_once (s : Sys W) :
  chan_inv s →
  ∃ s1,
    OnStop s = (Done tt, s1) ∧
    cancelPingCh (ep s1) = None ∧
    count is_EvCloseChan (trace s1) =
      (count is_EvCloseChan (trace s) +
       match cancelPingCh (ep s) with Some _ => 1 | None => 0 end)%nat ∧
    (∀ ch, cancelPingCh (ep s) = Some ch → chans s1 !! ch = Some true) ∧
    ∀ n, ∃ s2,
      stops n s1 = (Done tt, s2) ∧
      cancelPingCh (ep s2) = None ∧
      chans s2 = chans s1 ∧
      count is_EvCloseChan (trace s2) = count is_EvCloseChan (trace s1).
Proof.
  intros Hinv.
  assert (Hfirst : ∃ s1,
            OnStop s = (Done tt, s1) ∧ cancelPingCh (ep s1) = None ∧
            count is_EvCloseChan (trace s1) =
              (count is_EvCloseChan (trace s) +
               match cancelPingCh (ep s) with Some _ => 1 | None => 0 end)%nat ∧
            (∀ ch, cancelPingCh (ep s) = Some ch → chans s1 !! ch = Some true)).
  { destruct (cancelPingCh (ep s)) as [ch|] eqn:Hch.
    - rewrite OnStop_eq, Hch, (Hinv ch Hch).
      destruct (Close_frame
                  (mkSys (set_cancelPingCh None (ep s)) (world s)
                     (<[ch := true]> (chans s)) (tickers s)
                     (trace s ++ [EvCloseChan ch])))
        as (r & s' & evs & -> & Hc & Hchans & Htr & Hn).
      exists s'. cbn [ep chans trace set_cancelPingCh cancelPingCh] in *.
      repeat split; [exact Hc| |].
      + rewrite Htr, !count_app, Hn. cbn. lia.
      + intros ch' [= <-]. rewrite Hchans.
        apply list_lookup_insert_eq. eapply lookup_lt_Some, Hinv, Hch.
    - destruct (OnStop_without_signal s Hch) as (s1 & Hs & Hnil & _ & Hn).
      exists s1. repeat split; [exact Hs|exact Hnil|lia|discriminate]. }
  destruct Hfirst as (s1 & Hs & Hnil & Hn & Hclosed).
  exists s1. repeat split; try assumption.
  intros n. exact (stops_without_signal n s1 Hnil).
Qed.

(** ** Effects of the methods on the endpoint and on the trace *)

Lemma extends_by_refl (P : Event → bool) (s : Sys W) : extends_by P s s.
Proof. exists []. split; [now rewrite app_nil_r|constructor]. Qed.

Lemma extends_by_trans (P : Event → bool) (s1 s2 s3 : Sys W) :
  extends_by P s1 s2 → extends_by P s2 s3 → extends_by P s1 s3.
Proof.
  intros (evs1 & H1 & F1) (evs2 & H2 & F2). exists (evs1 ++ evs2).
  split; [rewrite H2, H1; now rewrite app_assoc|].
  apply Forall_app; auto.
Qed.

Lemma extends_by_mono (P Q : Event → bool) (s s' : Sys W) :
  (∀ ev, P ev = true → Q ev = true) → extends_by P s s' → extends_by Q s s'.
Proof.
  intros HPQ (evs & Htr & HF). exists evs. split; [exact Htr|].
  eapply Forall_impl; [exact HF|]. exact HPQ.
Qed.

Lemma extends_by_logged (P : Event → bool) (s : Sys W) evs :
  Forall (λ ev, P ev = true) evs → extends_by P s (logged s evs).
Proof. intros HF. exists evs. split; [reflexivity|exact HF]. Qed.

Lemma count_Forall_zero (P p : Event → bool) evs :
  (∀ ev, P ev = true → p ev = false) →
  Forall (λ ev, P ev = true) evs → count p evs = 0%nat.
Proof.
  intros HPp HF. induction HF as [|ev evs Hev _ IH]; cbn; [reflexivity|].
  now rewrite (HPp ev Hev), IH.
Qed.

Lemma extends_by_count (P p : Event → bool) (s s' : Sys W) :
  (∀ ev, P ev = true → p ev = false) →
  extends_by P s s' → count p (trace s') = count p (trace s).
Proof.
  intros HPp (evs & -> & HF).
  rewrite count_app, (count_Forall_zero P p evs HPp HF). lia.
Qed.

Lemma same_config_refl (s : Sys W) : same_config s s.
Proof. repeat split. Qed.

Lemma same_config_trans (s1 s2 s3 : Sys W) :
  same_config s1 s2 → same_config s2 s3 → same_config s1 s3.
Proof.
  unfold same_config. intros (? & ? & ? & ? & ? & ?) (? & ? & ? & ? & ? & ?).
  repeat split; congruence.
Qed.

Lemma same_config_logged (s : Sys W) evs : same_config s (logged s evs).
Proof. repeat split. Qed.

Lemma exchange_is_tick_event ev : exchange_event ev = true → tick_event ev = true.
Proof. destruct ev; cbn; congruence. Qed.

Lemma tick_is_goroutine_event ev : tick_event ev = true → goroutine_event ev = true.
Proof. unfold goroutine_event. intros ->. reflexivity. Qed.

Lemma retire_events (s : Sys W) : Forall (λ ev, tick_event ev = true) (retire s).2.
Proof.
  unfold retire. destruct (conn (ep s)) as [c|]; [|constructor].
  destruct (conn_Close c (world s)) as [[e|] w1]; cbn;
    repeat (constructor; [reflexivity|]); constructor.
Qed.

(** [connect], whether it returns or panics, changes the connection only. *)
Lemma connect_effects (s : Sys W) :
  same_config s (connect s).2 ∧ extends_by tick_event s (connect s).2.
Proof.
  destruct (listener (ep s)) as [l|] eqn:Hl.
  - destruct (listener_Accept l (retire s).1) as [[c' err] w2] eqn:Hacc.
    rewrite (connect_spec s l c' err w2 Hl Hacc). cbn [snd].
    split; [repeat split|].
    eexists. split; [reflexivity|].
    constructor; [reflexivity|]. apply Forall_app. split; [apply retire_events|].
    repeat (constructor; [reflexivity|]); constructor.
  - destruct (connect_nil_listener s Hl) as [why ->]. cbn [snd].
    split; [repeat split|].
    eexists. split; [reflexivity|].
    constructor; [reflexivity|]. apply Forall_app. split; [apply retire_events|].
    repeat (constructor; [reflexivity|]); constructor.
Qed.

Lemma SendRequest_effects (s : Sys W) req :
  ep (SendRequest req s).2 = ep s ∧
  same_config s (SendRequest req s).2 ∧
  extends_by exchange_event s (SendRequest req s).2.
Proof.
  destruct (SendRequest_frame s req) as (r & s' & mid & -> & Hep & Hch & Htk & Htr & Hmid).
  cbn [snd]. split; [exact Hep|]. split.
  - unfold same_config. rewrite Hep. repeat split; assumption.
  - exists (EvLock :: mid ++ [EvUnlock]). split; [exact Htr|].
    destruct (conn (ep s)) as [c|]; [destruct Hmid as [->| ->]|subst mid]; cbn;
      repeat (constructor; [reflexivity|]); constructor.
Qed.

Lemma ping_state (s : Sys W) : (ping s).2 = (SendRequest (Some PingRequest) s).2.
Proof.
  rewrite ping_eq.
  destruct (SendRequest (Some PingRequest) s) as [[[response [e|]]|why] s']; reflexivity.
Qed.

Lemma ping_effects (s : Sys W) :
  ep (ping s).2 = ep s ∧
  same_config s (ping s).2 ∧
  extends_by exchange_event s (ping s).2.
Proof. rewrite ping_state. apply SendRequest_effects. Qed.

Lemma on_tick_effects (s : Sys W) :
  same_config s (on_tick s).2 ∧ extends_by tick_event s (on_tick s).2.
Proof.
  rewrite on_tick_eq.
  destruct (ping_effects s) as (_ & Hcfg & Hext).
  apply (extends_by_mono _ _ _ _ exchange_is_tick_event) in Hext.
  destruct (ping s) as [[[e|]|why] s1]; cbn [snd] in *; [|auto|auto].
  destruct (is_ErrUnexpectedResponse e); cbn [snd].
  - split; [exact Hcfg|].
    eapply extends_by_trans; [exact Hext|].
    apply extends_by_logged. repeat (constructor; [reflexivity|]); constructor.
  - destruct (connect_effects (logged s1 [EvLogError "Ping" e])) as (Hcfg2 & Hext2).
    assert (Hcfg1 : same_config s (connect (logged s1 [EvLogError "Ping" e])).2).
    { eapply same_config_trans; [exact Hcfg|]. exact Hcfg2. }
    assert (Hext1 : extends_by tick_event s (connect (logged s1 [EvLogError "Ping" e])).2).
    { eapply extends_by_trans; [exact Hext|].
      eapply extends_by_trans; [|exact Hext2].
      apply extends_by_logged. repeat (constructor; [reflexivity|]); constructor. }
    destruct (connect (logged s1 [EvLogError "Ping" e])) as [[[[] [e'|]]|why] s2];
      cbn [snd] in *;
      try (split; [exact Hcfg1|];
           eapply extends_by_trans; [exact Hext1|];
           apply extends_by_logged; repeat (constructor; [reflexivity|]); constructor).
    auto.
Qed.

Lemma heartbeat_iter_eq (s : Sys W) c :
  heartbeat_iter c s =
    match pingTicker (ep s) with
    | Some t =>
        match c with
        | Tick => on_tick s
        | Cancel => (Done Terminated, logged s [EvTickerStop t])
        end
    | None => (Panicked "invalid memory address or nil pointer dereference", s)
    end.
Proof.
  unfold heartbeat_iter, bind, get_ep, emit, ret, panic, logged.
  destruct (pingTicker (ep s)) as [t|]; [|reflexivity].
  destruct c; reflexivity.
Qed.

Lemma heartbeat_iter_effects (s : Sys W) c :
  same_config s (heartbeat_iter c s).2 ∧
  extends_by goroutine_event s (heartbeat_iter c s).2.
Proof.
  rewrite heartbeat_iter_eq.
  destruct (pingTicker (ep s)) as [t|]; cbn [snd].
  - destruct c.
    + destruct (on_tick_effects s) as (Hcfg & Hext). split; [exact Hcfg|].
      eapply extends_by_mono; [exact tick_is_goroutine_event|exact Hext].
    + cbn [snd]. split; [apply same_config_logged|].
      apply extends_by_logged. repeat (constructor; [reflexivity|]); constructor.
  - split; [apply same_config_refl|apply extends_by_refl].
Qed.

Lemma heartbeat_effects cases : ∀ s : Sys W,
  same_config s (heartbeat cases s).2 ∧
  extends_by goroutine_event s (heartbeat cases s).2.
Proof.
  induction cases as [|c cases IH]; intros s.
  - cbn. split; [apply same_config_refl|apply extends_by_refl].
  - rewrite heartbeat_cons.
    destruct (heartbeat_iter_effects s c) as (Hcfg & Hext).
    destruct (heartbeat_iter c s) as [[[]|why] s1]; cbn [snd] in *; auto.
    destruct (IH s1) as (Hcfg' & Hext').
    split; [eapply same_config_trans|eapply extends_by_trans]; eassumption.
Qed.

(** ** Further properties of [connect], [Close], [SendRequest] and [ping] *)

Lemma retire_no_mutex (s : Sys W) : count is_mutex_event (retire s).2 = 0%nat.
Proof.
  unfold retire. destruct (conn (ep s)) as [c|]; [|reflexivity].
  destruct (conn_Close c (world s)) as [[e|] w1]; reflexivity.
Qed.

Lemma retire_conn_close_count (s : Sys W) :
  count is_EvConnClose (retire s).2 =
    match conn (ep s) with Some _ => 1%nat | None => 0%nat end.
Proof.
  unfold retire. destruct (conn (ep s)) as [c|]; [|reflexivity].
  destruct (conn_Close c (world s)) as [[e|] w1]; reflexivity.
Qed.

Lemma retire_conn_close_elem (s : Sys W) c :
  EvConnClose c ∈ (retire s).2 → conn (ep s) = Some c.
Proof.
  unfold retire. destruct (conn (ep s)) as [c0|]; cbn.
  - destruct (conn_Close c0 (world s)) as [[e|] w1]; cbn; intros Hin;
      repeat (apply elem_of_cons in Hin as [Heq|Hin]; [congruence|]);
      now apply elem_of_nil in Hin.
  - intros Hin. now apply elem_of_nil in Hin.
Qed.

Lemma Close_listener_trace ve (w : W) ch tk tr :
  ∃ r w' mid,
    Close_listener ve w ch tk tr = (Done r, mkSys ve w' ch tk (tr ++ mid ++ [EvUnlock])) ∧
    count is_mutex_event mid = 0%nat ∧
    count is_EvConnClose mid = 0%nat ∧
    count is_EvListenerClose mid =
      match listener ve with Some _ => 1%nat | None => 0%nat end.
Proof.
  unfold Close_listener. destruct (listener ve) as [l|].
  - destruct (listener_Close l w) as [[e|] w2].
    + eexists _, _, [EvListenerClose l; EvLogError "Closing Listener" e].
      repeat split; reflexivity.
    + eexists _, _, [EvListenerClose l]. repeat split; reflexivity.
  - eexists _, _, []. repeat split; reflexivity.
Qed.

(** [Close] changes the connection only. *)
Lemma Close_same_config (s : Sys W) : same_config s (Close s).2.
Proof.
  pose proof (Close_cases s) as Hc.
  destruct (conn (ep s)) as [c|].
  - destruct (conn_Close c (world s)) as [[e|] w1].
    + rewrite Hc. repeat split.
    + destruct (Close_listener_trace (set_conn None (ep s)) w1 (chans s) (tickers s)
                  (trace s ++ [EvLock; EvConnClose c])) as (r & w' & mid & Hl & _).
      rewrite Hc, Hl. repeat split.
  - destruct (Close_listener_trace (ep s) (world s) (chans s) (tickers s)
                (trace s ++ [EvLock])) as (r & w' & mid & Hl & _).
    rewrite Hc, Hl. repeat split.
Qed.

(** A [Close] that returns no error leaves no connection. *)
Lemma Close_nil_conn (s s' : Sys W) :
  Close s = (Done None, s') → conn (ep s') = None.
Proof.
  pose proof (Close_cases s) as Hc.
  destruct (conn (ep s)) as [c|] eqn:Hconn.
  - destruct (conn_Close c (world s)) as [[e|] w1].
    + rewrite Hc. discriminate.
    + destruct (Close_listener_trace (set_conn None (ep s)) w1 (chans s) (tickers s)
                  (trace s ++ [EvLock; EvConnClose c])) as (r & w' & mid & Hl & _).
      rewrite Hc, Hl. intros [= _ <-]. reflexivity.
  - destruct (Close_listener_trace (ep s) (world s) (chans s) (tickers s)
                (trace s ++ [EvLock])) as (r & w' & mid & Hl & _).
    rewrite Hc, Hl. intros [= _ <-]. exact Hconn.
Qed.


(** X1. Each of [connect], [Close] and [SendRequest] takes the mutex first and
    releases it last, on every path, the panic of [connect] on a nil listener
    included; nothing in between locks or unlocks. *)
Theorem mutex_always_released (s : Sys W) req :
  (∃ mid, trace (connect s).2 = trace s ++ EvLock :: mid ++ [EvUnlock] ∧
          count is_mutex_event mid = 0%nat) ∧
  (∃ mid, trace (Close s).2 = trace s ++ EvLock :: mid ++ [EvUnlock] ∧
          count is_mutex_event mid = 0%nat) ∧
  (∃ mid, trace (SendRequest req s).2 = trace s ++ EvLock :: mid ++ [EvUnlock] ∧
          count is_mutex_event mid = 0%nat).
Proof.
  split; [|split].
  - destruct (listener (ep s)) as [l|] eqn:Hl.
    + destruct (listener_Accept l (retire s).1) as [[c' err] w2] eqn:Hacc.
      rewrite (connect_spec s l c' err w2 Hl Hacc). cbn [snd trace].
      exists ((retire s).2 ++ [EvAccept l]). split.
      * now rewrite <- app_assoc.
      * rewrite count_app, retire_no_mutex. reflexivity.
    + destruct (connect_nil_listener s Hl) as [why ->]. cbn [snd trace].
      exists (retire s).2. split; [reflexivity|apply retire_no_mutex].
  - pose proof (Close_cases s) as Hc.
    destruct (conn (ep s)) as [c|].
    + destruct (conn_Close c (world s)) as [[e|] w1].
      * rewrite Hc. cbn [snd trace].
        exists [EvConnClose c; EvLogError "Closing connection" e].
        split; reflexivity.
      * destruct (Close_listener_trace (set_conn None (ep s)) w1 (chans s) (tickers s)
                    (trace s ++ [EvLock; EvConnClose c])) as (r & w' & mid & Hl & Hm & _).
        rewrite Hc, Hl. cbn [snd trace]. exists (EvConnClose c :: mid).
        split; [now rewrite <- app_assoc|]. cbn. exact Hm.
    + destruct (Close_listener_trace (ep s) (world s) (chans s) (tickers s)
                  (trace s ++ [EvLock])) as (r & w' & mid & Hl & Hm & _).
      rewrite Hc, Hl. cbn [snd trace]. exists mid.
      split; [now rewrite <- app_assoc|exact Hm].
  - destruct (SendRequest_frame s req)
      as (r & s' & mid & -> & _ & _ & _ & Htr & Hmid).
    cbn [snd]. exists mid. split; [exact Htr|].
    destruct (conn (ep s)) as [c|]; [destruct Hmid as [->| ->]|subst mid]; reflexivity.
Qed.

(** X2. On an endpoint without listener, [connect] panics at [Accept], after
    it has closed the connection held: the mutex is released, and the closed
    connection is still in the endpoint. *)
Theorem connect_nil_listener_panics_after_close (s : Sys W) c tmpErr w1 :
  listener (ep s) = None →
  conn (ep s) = Some c →
  conn_Close c (world s) = (tmpErr, w1) →
  ∃ why s',
    connect s = (Panicked why, s') ∧
    conn (ep s') = Some c ∧
    world s' = w1 ∧
    trace s' =
      trace s ++ [EvLock; EvConnClose c] ++
        match tmpErr with
        | Some e => [EvLogError "error closing socket val connection during connect" e]
        | None => []
        end ++ [EvUnlock].
Proof.
  intros Hl Hc Hclose.
  destruct (connect_nil_listener s Hl) as [why Hp].
  exists why. eexists. split; [exact Hp|].
  unfold retire. rewrite Hc, Hclose. cbn. auto.
Qed.

(** X3. Whatever [Accept] answers, [connect] calls [Close] on a connection
    once when one was held and never otherwise, and the connection it closes
    is the one that was held: the connection just accepted is never closed
    (lines 237-244 never run). *)
Theorem connect_closes_only_old_connection (s : Sys W) :
  ∃ evs,
    trace (connect s).2 = trace s ++ evs ∧
    count is_EvConnClose evs =
      match conn (ep s) with Some _ => 1%nat | None => 0%nat end ∧
    ∀ c, EvConnClose c ∈ evs → conn (ep s) = Some c.
Proof.
  destruct (listener (ep s)) as [l|] eqn:Hl.
  - destruct (listener_Accept l (retire s).1) as [[c' err] w2] eqn:Hacc.
    rewrite (connect_spec s l c' err w2 Hl Hacc). cbn [snd trace].
    eexists. split; [reflexivity|]. split.
    + change (EvLock :: (retire s).2 ++ [EvAccept l; EvUnlock])
        with ([EvLock] ++ (retire s).2 ++ [EvAccept l; EvUnlock]).
      rewrite !count_app, retire_conn_close_count. cbn. lia.
    + intros c Hin.
      apply elem_of_cons in Hin as [Heq|Hin]; [discriminate|].
      apply elem_of_app in Hin as [Hin|Hin]; [now apply retire_conn_close_elem|].
      repeat (apply elem_of_cons in Hin as [Heq|Hin]; [discriminate|]).
      now apply elem_of_nil in Hin.
  - destruct (connect_nil_listener s Hl) as [why ->]. cbn [snd trace].
    eexists. split; [reflexivity|]. split.
    + change (EvLock :: (retire s).2 ++ [EvUnlock])
        with ([EvLock] ++ (retire s).2 ++ [EvUnlock]).
      rewrite !count_app, retire_conn_close_count. cbn. lia.
    + intros c Hin.
      apply elem_of_cons in Hin as [Heq|Hin]; [discriminate|].
      apply elem_of_app in Hin as [Hin|Hin]; [now apply retire_conn_close_elem|].
      repeat (apply elem_of_cons in Hin as [Heq|Hin]; [discriminate|]).
      now apply elem_of_nil in Hin.
Qed.

(** X4. The results of [connect] exclude one another: closed comes with no
    error and with no connection in the endpoint; closed false with no error
    comes with a connection in the endpoint; an error comes with closed
    false and is the error that [Accept] returned.  [connect] returns only
    on an endpoint that has a listener. *)
Theorem connect_outcomes (s s' : Sys W) closed err :
  connect s = (Done (closed, err), s') →
  (closed = true → err = None ∧ conn (ep s') = None) ∧
  (closed = false → err = None → ∃ c, conn (ep s') = Some c) ∧
  (∀ e, err = Some e →
        closed = false ∧
        ∃ l c' w2, listener (ep s) = Some l ∧
                   listener_Accept l (retire s).1 = (c', Some e, w2)) ∧
  (∃ l, listener (ep s) = Some l).
Proof.
  intros Hc.
  apply connect_Done_inv in Hc as (l & c' & aerr & w2 & Hl & Hacc & Hr & ->).
  cbn [ep set_conn conn].
  destruct aerr as [io|]; cbn in Hr; injection Hr as -> ->.
  - split; [discriminate|]. split; [intros _; discriminate|].
    split; [intros e0 [= <-]; eauto 10|eauto].
  - destruct c' as [c''|].
    + split; [discriminate|]. split; [eauto|]. split; [discriminate|eauto].
    + split; [auto|]. split; [discriminate|]. split; [discriminate|eauto].
Qed.

(** X5. When [Close] returns no error, the endpoint holds no connection; the
    connection that was held, if any, has been closed once, and the listener,
    if there is one, has been closed once. *)
Theorem Close_nil_means_closed (s s' : Sys W) :
  Close s = (Done None, s') →
  conn (ep s') = None ∧
  ∃ evs,
    trace s' = trace s ++ evs ∧
    count is_EvConnClose evs =
      match conn (ep s) with Some _ => 1%nat | None => 0%nat end ∧
    count is_EvListenerClose evs =
      match listener (ep s) with Some _ => 1%nat | None => 0%nat end.
Proof.
  intros Hclose. split; [eapply Close_nil_conn; eassumption|].
  pose proof (Close_cases s) as Hc.
  destruct (conn (ep s)) as [c|].
  - destruct (conn_Close c (world s)) as [[e|] w1].
    + rewrite Hc in Hclose. discriminate.
    + destruct (Close_listener_trace (set_conn None (ep s)) w1 (chans s) (tickers s)
                  (trace s ++ [EvLock; EvConnClose c]))
        as (r & w' & mid & Hl & _ & Hcc & Hlc).
      rewrite Hc, Hl in Hclose. injection Hclose as _ <-. cbn [trace].
      exists ([EvLock; EvConnClose c] ++ mid ++ [EvUnlock]).
      split; [now rewrite <- app_assoc|].
      rewrite !count_app, Hcc, Hlc. cbn [listener set_conn]. cbn.
      split; [reflexivity|lia].
  - destruct (Close_listener_trace (ep s) (world s) (chans s) (tickers s)
                (trace s ++ [EvLock])) as (r & w' & mid & Hl & _ & Hcc & Hlc).
    rewrite Hc, Hl in Hclose. injection Hclose as _ <-. cbn [trace].
    exists ([EvLock] ++ mid ++ [EvUnlock]).
    split; [now rewrite <- app_assoc|].
    rewrite !count_app, Hcc, Hlc. cbn. split; [reflexivity|lia].
Qed.

(** X6. [Close] never clears the listener: after a [Close] that returned no
    error, another [Close] calls the close of the same listener again, and
    returns what that call returns. *)
Theorem Close_again_recloses_listener (s s' : Sys W) l err w2 :
  listener (ep s) = Some l →
  Close s = (Done None, s') →
  listener_Close l (world s') = (err, w2) →
  Close s' =
    (Done err,
     mkSys (ep s') w2 (chans s') (tickers s')
       (trace s' ++ [EvLock; EvListenerClose l] ++
          match err with
          | Some e => [EvLogError "Closing Listener" e]
          | None => []
          end ++ [EvUnlock])).
Proof.
  intros Hl Hclose Hlc.
  pose proof (Close_nil_conn s s' Hclose) as Hnil.
  pose proof (Close_same_config s) as (Hl' & _).
  rewrite Hclose in Hl'. cbn [snd] in Hl'. rewrite Hl in Hl'.
  pose proof (Close_cases s') as Hc. rewrite Hnil in Hc. rewrite Hc.
  unfold Close_listener. rewrite Hl', Hlc.
  repeat rewrite <- app_assoc. reflexivity.
Qed.

(** X7. After a [Close] that returned no error, every [SendRequest] fails
    with the not-connected error and calls no collaborator. *)
Theorem Close_then_not_connected (s s' : Sys W) req :
  Close s = (Done None, s') →
  SendRequest req s' =
    (Done (None, Some (Errorf "endpoint is not connected")),
     logged s' [EvLock; EvUnlock]).
Proof.
  intros Hclose.
  pose proof (Close_nil_conn s s' Hclose) as Hnil.
  pose proof (SendRequest_cases s' req) as Hs. rewrite Hnil in Hs. exact Hs.
Qed.

(** X8. An exchange, failed or not, leaves the endpoint as it was: it closes
    no connection and accepts none, and the next exchange begins by writing
    on the same connection. *)
Theorem SendRequest_keeps_connection (s : Sys W) req :
  ep (SendRequest req s).2 = ep s ∧
  count is_EvConnClose (trace (SendRequest req s).2) = count is_EvConnClose (trace s) ∧
  count is_EvAccept (trace (SendRequest req s).2) = count is_EvAccept (trace s) ∧
  ∀ c req', conn (ep s) = Some c →
    ∃ rest, trace (SendRequest req' (SendRequest req s).2).2 =
              trace (SendRequest req s).2 ++ EvLock :: EvWrite c req' :: rest.
Proof.
  destruct (SendRequest_effects s req) as (Hep & _ & Hext).
  split; [exact Hep|]. split; [|split].
  - eapply extends_by_count; [|exact Hext]. intros []; cbn; congruence.
  - eapply extends_by_count; [|exact Hext]. intros []; cbn; congruence.
  - intros c req' Hc.
    destruct (SendRequest_frame (SendRequest req s).2 req')
      as (r & s2 & mid & -> & _ & _ & _ & Htr & Hmid).
    rewrite Hep, Hc in Hmid. cbn [snd]. rewrite Htr.
    destruct Hmid as [->| ->]; eexists; reflexivity.
Qed.


(** X10. [ping] returns no error exactly when the exchange of a
    [PingRequest] succeeded and decoded a [PingResponse]; in particular a
    nil response decoded without error is not accepted. *)
Theorem ping_nil_iff_PingResponse (s s' : Sys W) :
  ping s = (Done None, s') ↔
  SendRequest (Some PingRequest) s = (Done (Some PingResponse, None), s').
Proof.
  rewrite ping_eq. split.
  - destruct (SendRequest (Some PingRequest) s) as [[[res [e|]]|why] s0];
      [discriminate| |discriminate].
    destruct res as [[]|]; cbn; intros Hx; try discriminate.
    injection Hx as <-. reflexivity.
  - intros ->. reflexivity.
Qed.

(** ** Further properties of the heartbeat goroutine and of the life cycle *)

Lemma connect_accept_le (s : Sys W) :
  (count is_EvAccept (trace (connect s).2) ≤ S (count is_EvAccept (trace s)))%nat.
Proof.
  destruct (listener (ep s)) as [l|] eqn:Hl.
  - destruct (listener_Accept l (retire s).1) as [[c' err] w2] eqn:Hacc.
    pose proof (connect_spec s l c' err w2 Hl Hacc) as Hc.
    pose proof (connect_one_accept _ _ _ Hc) as Hone.
    rewrite Hc. cbn [snd]. lia.
  - destruct (connect_nil_listener s Hl) as [why ->]. cbn [snd trace].
    change (EvLock :: (retire s).2 ++ [EvUnlock])
      with ([EvLock] ++ (retire s).2 ++ [EvUnlock]).
    rewrite !count_app, retire_no_accept. cbn. lia.
Qed.

Lemma on_tick_accept_le (s : Sys W) :
  (count is_EvAccept (trace (on_tick s).2) ≤ S (count is_EvAccept (trace s)))%nat.
Proof.
  rewrite on_tick_eq.
  destruct (ping_effects s) as (_ & _ & Hext).
  assert (Hp : count is_EvAccept (trace (ping s).2) = count is_EvAccept (trace s)).
  { eapply extends_by_count; [|exact Hext]. intros []; cbn; congruence. }
  destruct (ping s) as [[[e|]|why] s1]; cbn [snd] in *; [|lia|lia].
  destruct (is_ErrUnexpectedResponse e); cbn [snd logged trace].
  - rewrite count_app, Hp. cbn. lia.
  - pose proof (connect_accept_le (logged s1 [EvLogError "Ping" e])) as Hc.
    cbn [logged trace] in Hc. rewrite count_app, Hp in Hc. cbn in Hc.
    destruct (connect (logged s1 [EvLogError "Ping" e])) as [[[[] [e'|]]|why] s2];
      cbn [snd logged trace] in *; rewrite ?count_app; cbn; lia.
Qed.

Lemma on_tick_runs (s : Sys W) l :
  listener (ep s) = Some l → ∃ st s', on_tick s = (Done st, s').
Proof.
  intros Hl. rewrite on_tick_eq.
  destruct (ping_frame s) as (r & s1 & -> & Hep & _).
  destruct r as [e|]; [|eauto].
  destruct (is_ErrUnexpectedResponse e); [eauto|].
  assert (Hl1 : listener (ep (logged s1 [EvLogError "Ping" e])) = Some l)
    by (cbn; now rewrite Hep).
  destruct (listener_Accept l (retire (logged s1 [EvLogError "Ping" e])).1)
    as [[c' err] w2] eqn:Hacc.
  rewrite (connect_spec _ l c' err w2 Hl1 Hacc).
  unfold connect_result. destruct err as [io|]; [eauto|].
  destruct c' as [c''|]; eauto.
Qed.

Lemma heartbeat_runs cases : ∀ (s : Sys W) t l,
  pingTicker (ep s) = Some t → listener (ep s) = Some l →
  ∃ st s', heartbeat cases s = (Done st, s').
Proof.
  induction cases as [|c cases IH]; intros s t l Ht Hl.
  - cbn. unfold ret. eauto.
  - rewrite heartbeat_cons.
    destruct (heartbeat_iter_effects s c) as ((Hl' & _ & Ht' & _) & _).
    assert (Hrun : ∃ st s', heartbeat_iter c s = (Done st, s')).
    { rewrite heartbeat_iter_eq, Ht. destruct c; [|eauto].
      eapply on_tick_runs; eassumption. }
    destruct Hrun as (st & s1 & Hiter). rewrite Hiter in *. cbn [snd] in *.
    destruct st; [|eauto].
    apply (IH s1 t l); congruence.
Qed.

Lemma OnStop_with_signal (s : Sys W) ch :
  cancelPingCh (ep s) = Some ch → chans s !! ch = Some false →
  ∃ s', OnStop s = (Done tt, s') ∧ cancelPingCh (ep s') = None ∧
        chans s' = <[ch := true]> (chans s) ∧
        count is_EvCloseChan (trace s') = S (count is_EvCloseChan (trace s)).
Proof.
  intros Hch Hopen. rewrite OnStop_eq, Hch, Hopen.
  destruct (Close_frame
              (mkSys (set_cancelPingCh None (ep s)) (world s)
                 (<[ch := true]> (chans s)) (tickers s)
                 (trace s ++ [EvCloseChan ch])))
    as (r & s' & evs & -> & Hc & Hchans & Htr & Hn).
  exists s'. cbn [ep chans trace set_cancelPingCh cancelPingCh] in *.
  repeat split; [exact Hc|exact Hchans|].
  rewrite Htr, !count_app, Hn. cbn. lia.
Qed.

(** What a successful [OnStart] leaves. *)
Lemma OnStart_success_inv (s s1 : Sys W) :
  OnStart s = (Done None, s1) →
  (∃ c, conn (ep s1) = Some c) ∧
  (∃ l, listener (ep s1) = Some l) ∧
  pingTicker (ep s1) = Some (length (tickers s)) ∧
  cancelPingCh (ep s1) = Some (length (chans s)) ∧
  chans s1 = chans s ++ [false] ∧
  count is_EvCloseChan (trace s1) = count is_EvCloseChan (trace s).
Proof.
  rewrite OnStart_eq.
  destruct (connect s) as [[[closed [e|]]|why] s0] eqn:Hc;
    [destruct closed; discriminate| |discriminate].
  destruct closed; [discriminate|].
  destruct (heartbeatPeriod (ep s0) <=? 0)%Z; [discriminate|].
  intros [= <-].
  pose proof (connect_effects s) as (_ & Hext). rewrite Hc in Hext. cbn [snd] in Hext.
  assert (Hcc : count is_EvCloseChan (trace s0) = count is_EvCloseChan (trace s)).
  { eapply extends_by_count; [|exact Hext]. intros []; cbn; congruence. }
  apply connect_Done_inv in Hc as (l & c' & err & w2 & Hl & _ & Hr & ->).
  cbn [ep chans tickers trace set_pingTicker set_cancelPingCh set_conn
       conn listener pingTicker cancelPingCh] in *.
  destruct err as [io|]; [discriminate|].
  destruct c' as [c''|]; [|discriminate].
  repeat split; eauto.
  rewrite count_app, Hcc. cbn. lia.
Qed.

(** X11. A goroutine whose endpoint has its ticker and its listener never
    panics, whatever cases fire and whatever the collaborators answer.  Of
    the endpoint it changes nothing but the connection; it makes no channel
    and no ticker, and closes no channel. *)
Theorem heartbeat_never_panics (s : Sys W) t l cases :
  pingTicker (ep s) = Some t →
  listener (ep s) = Some l →
  ∃ st s', heartbeat cases s = (Done st, s') ∧ same_config s s'.
Proof.
  intros Ht Hl.
  destruct (heartbeat_runs cases s t l Ht Hl) as (st & s' & Hrun).
  exists st, s'. split; [exact Hrun|].
  pose proof (heartbeat_effects cases s) as (Hcfg & _).
  now rewrite Hrun in Hcfg.
Qed.

(** X12. The goroutine calls [Accept] at most once for each tick. *)
Theorem heartbeat_accepts_at_most_once_per_tick cases : ∀ s : Sys W,
  (count is_EvAccept (trace (heartbeat cases s).2)
   ≤ count is_EvAccept (trace s) + ticks cases)%nat.
Proof.
  induction cases as [|c cases IH]; intros s.
  - cbn. lia.
  - rewrite heartbeat_cons.
    assert (Hiter : (count is_EvAccept (trace (heartbeat_iter c s).2)
                     ≤ count is_EvAccept (trace s)
                       + match c with Tick => 1 | Cancel => 0 end)%nat).
    { rewrite heartbeat_iter_eq.
      destruct (pingTicker (ep s)) as [t|]; [|cbn; lia].
      destruct c.
      - pose proof (on_tick_accept_le s). lia.
      - cbn [snd logged trace]. rewrite count_app. cbn. lia. }
    specialize (IH (heartbeat_iter c s).2).
    destruct (heartbeat_iter c s) as [[[]|why] s1]; cbn [snd] in *;
      destruct c; cbn [ticks]; lia.
Qed.

(** X13. The goroutine never closes the listener, never closes the
    cancellation channel and never starts a goroutine: the trace gains no
    such event, whatever cases fire, also when the goroutine panics. *)
Theorem heartbeat_leaves_listener_and_signal (s : Sys W) cases :
  count is_EvListenerClose (trace (heartbeat cases s).2)
    = count is_EvListenerClose (trace s) ∧
  count is_EvCloseChan (trace (heartbeat cases s).2)
    = count is_EvCloseChan (trace s) ∧
  count is_EvGo (trace (heartbeat cases s).2) = count is_EvGo (trace s) ∧
  cancelPingCh (ep (heartbeat cases s).2) = cancelPingCh (ep s) ∧
  chans (heartbeat cases s).2 = chans s.
Proof.
  destruct (heartbeat_effects cases s) as ((_ & Hch & _ & _ & Hchans & _) & Hext).
  repeat split; try assumption;
    (eapply extends_by_count; [|exact Hext]);
    intros []; cbn; congruence.
Qed.

(** X14. The ticker is stopped by the cancel case only: the goroutine stops
    it at most once, and not at all over ticks alone, so a loop that ends
    on an unexpected response or on a closed listener leaves the ticker
    running. *)
Theorem ticker_stopped_only_on_cancel cases : ∀ s : Sys W,
  (count is_EvTickerStop (trace (heartbeat cases s).2)
   ≤ S (count is_EvTickerStop (trace s)))%nat ∧
  (ticks cases = length cases →
   count is_EvTickerStop (trace (heartbeat cases s).2)
     = count is_EvTickerStop (trace s)).
Proof.
  induction cases as [|c cases IH]; intros s.
  - cbn. split; [lia|reflexivity].
  - rewrite heartbeat_cons, heartbeat_iter_eq.
    destruct (pingTicker (ep s)) as [t|]; [|cbn; split; [lia|reflexivity]].
    destruct c.
    + destruct (on_tick_effects s) as (_ & Hext).
      assert (Hts : count is_EvTickerStop (trace (on_tick s).2)
                    = count is_EvTickerStop (trace s)).
      { eapply extends_by_count; [|exact Hext]. intros []; cbn; congruence. }
      destruct (IH (on_tick s).2) as (IHle & IHeq).
      destruct (on_tick s) as [[[]|why] s1]; cbn [snd ticks length] in *.
      * split; [lia|]. intros Hall. rewrite IHeq by lia. exact Hts.
      * split; [lia|]. intros _. exact Hts.
      * split; [lia|]. intros _. exact Hts.
    + cbn [snd logged trace ticks length]. rewrite count_app. cbn. split; [lia|].
      intros Hall. exfalso.
      assert (Hle : (ticks cases ≤ length cases)%nat).
      { clear. induction cases as [|[] cases IH]; cbn; lia. }
      lia.
Qed.

(** X15. A goroutine ended by the unexpected-response error leaves the link
    as it is: the endpoint is unchanged and still holds the connection on
    which the probe was made, no connection has been closed, and the ticker
    has not been stopped. *)
Theorem heartbeat_fatal_keeps_connection (s s1 : Sys W) t cases :
  pingTicker (ep s) = Some t →
  ping s = (Done (Some ErrUnexpectedResponse), s1) →
  ∃ c s',
    heartbeat (Tick :: cases) s = (Done Terminated, s') ∧
    ep s' = ep s ∧
    conn (ep s') = Some c ∧
    count is_EvConnClose (trace s') = count is_EvConnClose (trace s) ∧
    count is_EvTickerStop (trace s') = count is_EvTickerStop (trace s).
Proof.
  intros Ht Hp.
  assert (Hconn : ∃ c, conn (ep s) = Some c).
  { rewrite ping_eq in Hp.
    destruct (SendRequest (Some PingRequest) s) as [[[res [e|]]|why] s0] eqn:Hs;
      [| |discriminate].
    - injection Hp as -> _.
      destruct (SendRequest_unexpected_inv _ _ _ _ _ Hs eq_refl) as (c & Hc & _).
      eauto.
    - destruct (SendRequest_success_trace _ _ _ _ Hs) as (c & Hc & _). eauto. }
  destruct Hconn as [c Hc].
  destruct (ping_effects s) as (Hep & _ & Hext).
  rewrite Hp in Hep, Hext. cbn [snd] in Hep, Hext.
  exists c, (logged s1 [EvLogError "Ping" ErrUnexpectedResponse]).
  split; [|split; [exact Hep|split; [cbn; now rewrite Hep|]]].
  - rewrite heartbeat_cons, (heartbeat_iter_Tick s t Ht), on_tick_eq, Hp. reflexivity.
  - cbn [logged trace]. rewrite !count_app. cbn.
    rewrite (extends_by_count exchange_event is_EvConnClose s s1),
            (extends_by_count exchange_event is_EvTickerStop s s1);
      try exact Hext; try (intros []; cbn; congruence).
    lia.
Qed.

(** X16. From a successful [OnStart], the goroutine run over any cases and
    then [OnStop] never panic: [OnStop] finds the channel made by [OnStart]
    still open, closes it, and clears the field; over the whole run exactly
    one channel has been closed. *)
Theorem start_probe_stop (s s1 : Sys W) cases :
  OnStart s = (Done None, s1) →
  ∃ st s2 s3,
    heartbeat cases s1 = (Done st, s2) ∧
    OnStop s2 = (Done tt, s3) ∧
    cancelPingCh (ep s3) = None ∧
    chans s3 = chans s ++ [true] ∧
    count is_EvCloseChan (trace s3) = S (count is_EvCloseChan (trace s)).
Proof.
  intros Hstart.
  apply OnStart_success_inv in Hstart
    as (_ & (l & Hl) & Ht & Hch & Hchans & Hcc).
  destruct (heartbeat_runs cases s1 _ l Ht Hl) as (st & s2 & Hrun).
  pose proof (heartbeat_effects cases s1) as ((_ & Hch2 & _ & _ & Hchans2 & _) & Hext).
  rewrite Hrun in Hch2, Hchans2, Hext. cbn [snd] in *.
  assert (Hcc2 : count is_EvCloseChan (trace s2) = count is_EvCloseChan (trace s1)).
  { eapply extends_by_count; [|exact Hext]. intros []; cbn; congruence. }
  assert (Hopen : chans s2 !! length (chans s) = Some false).
  { rewrite Hchans2, Hchans. now apply list_lookup_middle. }
  destruct (OnStop_with_signal s2 (length (chans s))) as (s3 & Hstop & Hnil & Hch3 & Hcc3);
    [rewrite Hch2; exact Hch|exact Hopen|].
  exists st, s2, s3. repeat split; try assumption.
  - rewrite Hch3, Hchans2, Hchans.
    rewrite insert_app_r_alt by lia. rewrite Nat.sub_diag. reflexivity.
  - congruence.
Qed.

Lemma same_config_wiring (s s' : Sys W) : same_config s s' → same_wiring s s'.
Proof. intros (Hl & _ & _ & Hp & _). split; assumption. Qed.

(** X17. An [OnStart] that returns an error has made no channel and started
    no ticker: the cancellation channel and the ticker of the endpoint, the
    channels and the tickers are as before the call. *)
Theorem OnStart_failure_allocates_nothing (s s' : Sys W) e :
  OnStart s = (Done (Some e), s') →
  same_config s s' ∧ (chan_inv s → chan_inv s').
Proof.
  rewrite OnStart_eq. intros Hstart.
  pose proof (connect_effects s) as (Hcfg & _).
  assert (Hsame : same_config s s').
  { destruct (connect s) as [[[[] [e'|]]|why] s1]; cbn [snd] in *;
      try discriminate;
      try (destruct (heartbeatPeriod (ep s1) <=? 0)%Z; discriminate);
      injection Hstart as _ <-; exact Hcfg. }
  split; [exact Hsame|].
  destruct Hsame as (_ & Hch & _ & _ & Hchans & _).
  intros Hinv ch Hc. rewrite Hchans. apply Hinv. now rewrite <- Hch.
Qed.

(** X18. No method changes the listener or the heartbeat period of the
    endpoint, whether it returns or panics. *)
Theorem listener_and_period_never_change (s : Sys W) req cases :
  same_wiring s (connect s).2 ∧
  same_wiring s (Close s).2 ∧
  same_wiring s (SendRequest req s).2 ∧
  same_wiring s (OnStart s).2 ∧
  same_wiring s (OnStop s).2 ∧
  same_wiring s (heartbeat cases s).2.
Proof.
  split; [apply same_config_wiring, connect_effects|].
  split; [apply same_config_wiring, Close_same_config|].
  split; [apply same_config_wiring, SendRequest_effects|].
  split; [|split; [|apply same_config_wiring, heartbeat_effects]].
  - rewrite OnStart_eq.
    pose proof (connect_effects s) as (Hcfg & _).
    apply same_config_wiring in Hcfg.
    destruct (connect s) as [[[[] [e|]]|why] s1]; cbn [snd] in *;
      try exact Hcfg.
    destruct (heartbeatPeriod (ep s1) <=? 0)%Z; exact Hcfg.
  - rewrite OnStop_eq.
    destruct (cancelPingCh (ep s)) as [ch|].
    + destruct (chans s !! ch) as [[]|]; cbn [snd]; try (split; reflexivity).
      pose proof (Close_same_config
                    (mkSys (set_cancelPingCh None (ep s)) (world s)
                       (<[ch := true]> (chans s)) (tickers s)
                       (trace s ++ [EvCloseChan ch]))) as Hcfg.
      apply same_config_wiring in Hcfg.
      destruct (Close _) as [r s']. exact Hcfg.
    + pose proof (Close_same_config s) as Hcfg.
      apply same_config_wiring in Hcfg.
      destruct (Close s) as [r s']. exact Hcfg.
Qed.

(** X19. [OnStop] on a started endpoint whose two closes succeed: the
    cancellation channel is closed first, then, under the mutex, the
    connection and then the listener; the endpoint is left without
    connection and without cancellation channel.  The ticker is not
    stopped by [OnStop]. *)
Theorem OnStop_full_teardown (s : Sys W) ch c l w1 w2 :
  cancelPingCh (ep s) = Some ch →
  chans s !! ch = Some false →
  conn (ep s) = Some c →
  listener (ep s) = Some l →
  conn_Close c (world s) = (None, w1) →
  listener_Close l w1 = (None, w2) →
  OnStop s =
    (Done tt,
     mkSys (set_conn None (set_cancelPingCh None (ep s))) w2
       (<[ch := true]> (chans s)) (tickers s)
       (trace s ++ [EvCloseChan ch; EvLock; EvConnClose c; EvListenerClose l; EvUnlock])).
Proof.
  intros Hch Hopen Hc Hl Hcc Hlc.
  rewrite OnStop_eq, Hch, Hopen.
  pose proof (Close_cases
                (mkSys (set_cancelPingCh None (ep s)) (world s)
                   (<[ch := true]> (chans s)) (tickers s)
                   (trace s ++ [EvCloseChan ch]))) as Hclose.
  cbn [ep world chans tickers trace set_cancelPingCh conn] in Hclose.
  rewrite Hc, Hcc in Hclose. rewrite Hclose.
  unfold Close_listener. cbn [listener set_conn set_cancelPingCh].
  rewrite Hl, Hlc. cbn.
  repeat rewrite <- app_assoc. reflexivity.
Qed.


(** X21. An endpoint just made by [NewSignerListenerEndpoint] has the default
    period of two seconds and is idle: an exchange fails as not connected,
    and [OnStop] returns without panic, closing no channel and no
    connection, and the listener once when there is one. *)
Theorem new_endpoint_is_idle (l : option Listener) (w : W) req :
  heartbeatPeriod (NewSignerListenerEndpoint l) = 2000000000 ∧
  SendRequest req (boot (NewSignerListenerEndpoint l) w) =
    (Done (None, Some (Errorf "endpoint is not connected")),
     logged (boot (NewSignerListenerEndpoint l) w) [EvLock; EvUnlock]) ∧
  ∃ s',
    OnStop (boot (NewSignerListenerEndpoint l) w) = (Done tt, s') ∧
    count is_EvCloseChan (trace s') = 0%nat ∧
    count is_EvConnClose (trace s') = 0%nat ∧
    count is_EvListenerClose (trace s') =
      match l with Some _ => 1%nat | None => 0%nat end.
Proof.
  split; [reflexivity|]. split.
  - exact (SendRequest_cases (boot (NewSignerListenerEndpoint l) w) req).
  - rewrite OnStop_eq. cbn [boot ep NewSignerListenerEndpoint cancelPingCh].
    pose proof (Close_cases (boot (NewSignerListenerEndpoint l) w)) as Hclose.
    unfold Close_listener in Hclose.
    cbn [boot ep world chans tickers trace NewSignerListenerEndpoint conn listener]
      in Hclose.
    destruct l as [l0|]; [destruct (listener_Close l0 w) as [[e|] w2]|];
      unfold boot in *; rewrite Hclose;
      (eexists; split; [reflexivity|]); cbn; auto.
Qed.

(** X22. The option [SignerValidatorEndpointSetHeartbeat] decides the period
    of the ticker that [OnStart] starts, and nothing else of the endpoint:
    after a successful [OnStart] on an endpoint it was applied to, the ticker
    of the endpoint has the period given and the listener is the one the
    endpoint had. *)
Theorem heartbeat_option_sets_ticker_period (ve : Endpoint) (w : W) period s1 :
  OnStart (boot (SignerValidatorEndpointSetHeartbeat period ve) w) = (Done None, s1) →
  heartbeatPeriod (ep s1) = period ∧
  listener (ep s1) = listener ve ∧
  ∃ t, pingTicker (ep s1) = Some t ∧ tickers s1 !! t = Some period.
Proof.
  rewrite OnStart_eq.
  destruct (connect (boot (SignerValidatorEndpointSetHeartbeat period ve) w))
    as [[[closed [e|]]|why] s0] eqn:Hc;
    [destruct closed; discriminate| |discriminate].
  destruct closed; [discriminate|].
  destruct (heartbeatPeriod (ep s0) <=? 0)%Z; [discriminate|].
  intros [= <-].
  apply connect_Done_inv in Hc as (l & c' & err & w2 & _ & _ & _ & ->).
  cbn [ep tickers boot set_pingTicker set_cancelPingCh set_conn
       SignerValidatorEndpointSetHeartbeat heartbeatPeriod listener pingTicker].
  split; [reflexivity|]. split; [reflexivity|].
  eexists. split; [reflexivity|]. reflexivity.
Qed.

End Specs.

(** ** The methods on the scripted world *)

#[local] Close Scope Z_scope.

(** C1, counterexample. Both a connection and a listener are held and the
    close of the connection fails: [Close] returns that error after the log
    line, and the close of the listener is never called. *)
Lemma Close_conn_failure_skips_listener :
  let s := boot ve_held (mkScript [Some eof] [] [] [] []) in
  conn (ep s) = Some 7%nat ∧
  listener (ep s) = Some 1%nat ∧
  (conn_Close 7%nat (world s)).1 = Some eof ∧
  (Close s).1 = Done (Some eof) ∧
  trace (Close s).2 =
    [EvLock; EvConnClose 7; EvLogError "Closing connection" eof; EvUnlock] ∧
  count is_EvListenerClose (trace (Close s).2) = 0%nat ∧
  conn (ep (Close s).2) = Some 7%nat.
Proof. cbv zeta. repeat split; reflexivity. Qed.

Lemma Close_stops_at_first_failure_witness :
  let s := boot ve_held (mkScript [Some eof] [] [] [] []) in
  conn (ep s) = Some 7 ∧
  listener (ep s) = Some 1 ∧
  Close s =
    (Done (Some eof),
     mkSys ve_held quiet [] []
       [EvLock; EvConnClose 7; EvLogError "Closing connection" eof; EvUnlock]).
Proof.
  cbv zeta.
  assert (Hc : conn (ep (boot ve_held (mkScript [Some eof] [] [] [] []))) = Some 7)
    by reflexivity.
  assert (Hl : listener (ep (boot ve_held (mkScript [Some eof] [] [] [] []))) = Some 1)
    by reflexivity.
  split; [exact Hc|split; [exact Hl|]].
  destruct (Close_stops_at_first_failure _ 7 1 Hc Hl) as (Hfail & _).
  destruct (Hfail eof quiet) as (Heq & _); [reflexivity|exact Heq].
Defined.

Lemma heartbeat_unexpected_response_is_fatal_witness :
  let s := boot ve_held (mkScript [] [] [] [] [(Some (SignerMsg 3 []), None)]) in
  pingTicker (ep s) = Some 0%nat ∧
  ping s = (Done (Some ErrUnexpectedResponse), (ping s).2) ∧
  heartbeat [Tick; Tick; Cancel] s =
    (Done Terminated, logged (ping s).2 [EvLogError "Ping" ErrUnexpectedResponse]) ∧
  count is_EvAccept (trace (logged (ping s).2 [EvLogError "Ping" ErrUnexpectedResponse]))
    = count is_EvAccept (trace s).
Proof.
  cbv zeta. split; [reflexivity|split; [reflexivity|]].
  apply (heartbeat_unexpected_response_is_fatal
           (boot ve_held (mkScript [] [] [] [] [(Some (SignerMsg 3 []), None)]))
           _ 0%nat [Tick; Cancel]); reflexivity.
Defined.

Lemma heartbeat_transport_error_reconnects_once_witness :
  let s := boot ve_held (mkScript [] [] [(Some 8, None)] [Some io_timeout] []) in
  let e := ErrorWrap ErrListenerTimeout "i/o timeout" in
  let s2 := (connect (logged (ping s).2 [EvLogError "Ping" e])).2 in
  pingTicker (ep s) = Some 0 ∧
  ping s = (Done (Some e), (ping s).2) ∧
  is_ErrUnexpectedResponse e = false ∧
  connect (logged (ping s).2 [EvLogError "Ping" e]) = (Done (false, None), s2) ∧
  heartbeat_iter Tick s =
    (Done Probing, logged s2 [EvLogInfo "Re-created connection to remote signer"]) ∧
  conn (ep s2) = Some 8.
Proof.
  cbv zeta.
  assert (Hp : ping (boot ve_held (mkScript [] [] [(Some 8, None)] [Some io_timeout] []))
               = (Done (Some (ErrorWrap ErrListenerTimeout "i/o timeout")),
                  (ping (boot ve_held
                           (mkScript [] [] [(Some 8, None)] [Some io_timeout] []))).2))
    by (vm_compute; reflexivity).
  assert (Hc : connect
                 (logged (ping (boot ve_held
                           (mkScript [] [] [(Some 8, None)] [Some io_timeout] []))).2
                    [EvLogError "Ping" (ErrorWrap ErrListenerTimeout "i/o timeout")])
               = (Done (false, None),
                  (connect
                     (logged (ping (boot ve_held
                               (mkScript [] [] [(Some 8, None)] [Some io_timeout] []))).2
                        [EvLogError "Ping" (ErrorWrap ErrListenerTimeout "i/o timeout")])).2))
    by (vm_compute; reflexivity).
  split; [reflexivity|]. split; [exact Hp|]. split; [reflexivity|].
  split; [exact Hc|].
  destruct (heartbeat_transport_error_reconnects_once
              (boot ve_held (mkScript [] [] [(Some 8, None)] [Some io_timeout] []))
              _ 0 _ [] eq_refl Hp eq_refl) as (_ & _ & Hgo).
  destruct (Hgo _ Hc) as (Hiter & _ & _ & _).
  split; [exact Hiter|]. vm_compute; reflexivity.
Defined.

Lemma connect_retires_old_connection_first_witness :
  let s := boot ve_held (mkScript [Some eof] [] [(Some 8%nat, None)] [] []) in
  conn (ep s) = Some 7%nat ∧
  listener (ep s) = Some 1%nat ∧
  conn_Close 7%nat (world s) = (Some eof, mkScript [] [] [(Some 8%nat, None)] [] []) ∧
  listener_Accept 1%nat (mkScript [] [] [(Some 8%nat, None)] [] []) =
    (Some 8%nat, None, quiet) ∧
  connect s =
    (Done (false, None),
     mkSys (set_conn (Some 8%nat) ve_held) quiet [] []
       [EvLock; EvConnClose 7;
        EvLogError "error closing socket val connection during connect" eof;
        EvAccept 1; EvUnlock]).
Proof.
  cbv zeta. do 4 (split; [reflexivity|]).
  apply (connect_retires_old_connection_first
           (boot ve_held (mkScript [Some eof] [] [(Some 8%nat, None)] [] []))
           7%nat 1%nat (Some eof) (mkScript [] [] [(Some 8%nat, None)] [] [])
           (Some 8%nat) None quiet); reflexivity.
Defined.

Lemma OnStop_closes_signal_at_most_once_witness :
  let s := mkSys (set_cancelPingCh (Some 0%nat) ve_held) quiet [false] [2000000000%Z] [] in
  chan_inv s ∧
  ∃ s1, OnStop s = (Done tt, s1) ∧
        count is_EvCloseChan (trace s1) = 1%nat ∧
        ∃ s2, stops 3 s1 = (Done tt, s2) ∧
              count is_EvCloseChan (trace s2) = 1%nat.
Proof.
  cbv zeta.
  assert (Hinv : chan_inv (mkSys (set_cancelPingCh (Some 0%nat) ve_held) quiet
                             [false] [2000000000%Z] []))
    by (intros ch [= <-]; reflexivity).
  split; [exact Hinv|].
  destruct (OnStop_closes_signal_at_most_once _ Hinv)
    as (s1 & Hs & _ & Hn & _ & Hrest).
  destruct (Hrest 3%nat) as (s2 & Hs2 & _ & _ & Hn2).
  exists s1. split; [exact Hs|]. split; [exact Hn|].
  exists s2. split; [exact Hs2|]. rewrite Hn2. exact Hn.
Defined.

Lemma not_connected_is_surfaced_witness :
  let s := boot ve_fresh quiet in
  conn (ep s) = None ∧
  SendRequest (Some PingRequest) s =
    (Done (None, Some (Errorf "endpoint is not connected")),
     logged s [EvLock; EvUnlock]).
Proof.
  cbv zeta. split; [reflexivity|].
  apply (not_connected_is_surfaced (boot ve_fresh quiet) (Some PingRequest) eq_refl).
Defined.


(** A whole exchange: the request is written, the response read, under the
    mutex. *)
Example SendRequest_answered :
  SendRequest (Some (SignerMsg 3 [1; 2]))
    (boot ve_held (mkScript [] [] [] [] [(Some (SignerMsg 4 [5]), None)])) =
  (Done (Some (SignerMsg 4 [5]), None),
   mkSys ve_held quiet [] []
     [EvLock; EvWrite 7 (Some (SignerMsg 3 [1; 2])); EvRead 7; EvUnlock]).
Proof. reflexivity. Qed.

(** A write that times out: the error is wrapped and nothing is read. *)
Example SendRequest_write_timeout :
  SendRequest (Some PingRequest)
    (boot ve_held (mkScript [] [] [] [Some io_timeout] [(Some PingResponse, None)])) =
  (Done (None, Some (ErrorWrap ErrListenerTimeout "i/o timeout")),
   mkSys ve_held (mkScript [] [] [] [] [(Some PingResponse, None)]) [] []
     [EvLock; EvWrite 7 (Some PingRequest); EvUnlock]).
Proof. reflexivity. Qed.

(** A start that succeeds, followed by two stops. *)
Example OnStart_then_stops :
  let s := boot ve_fresh (mkScript [] [] [(Some 8, None)] [] []) in
  (OnStart s).1 = Done None ∧
  trace (OnStart s).2 =
    [EvLock; EvAccept 1; EvUnlock; EvMakeChan 0; EvNewTicker 0 2000000000%Z; EvGo] ∧
  (stops 2 (OnStart s).2).1 = Done tt ∧
  trace (stops 2 (OnStart s).2).2 =
    trace (OnStart s).2 ++
    [EvCloseChan 0; EvLock; EvConnClose 8; EvListenerClose 1; EvUnlock;
     EvLock; EvListenerClose 1; EvUnlock].
Proof. cbv zeta. repeat split; reflexivity. Qed.

(** A start on a listener that reports it is closed. *)
Example OnStart_listener_closed :
  OnStart (boot ve_fresh quiet) =
  (Done (Some (Errorf "listener is closed")),
   mkSys ve_fresh quiet [] [] [EvLock; EvAccept 1; EvUnlock]).
Proof. reflexivity. Qed.

(** A probe answered by a [PingResponse] leaves the loop probing; the
    cancellation then stops the ticker and ends the loop. *)
Example heartbeat_ping_then_cancel :
  heartbeat [Tick; Cancel]
    (boot ve_held (mkScript [] [] [] [] [(Some PingResponse, None)])) =
  (Done Terminated,
   mkSys ve_held quiet [] []
     [EvLock; EvWrite 7 (Some PingRequest); EvRead 7; EvUnlock; EvTickerStop 0]).
Proof. reflexivity. Qed.


(** ** Witnesses of the further properties *)

Lemma connect_nil_listener_panics_after_close_witness :
  let s := boot (set_conn (Some 7) (NewSignerListenerEndpoint None))
             (mkScript [Some eof] [] [] [] []) in
  listener (ep s) = None ∧
  conn (ep s) = Some 7 ∧
  conn_Close 7 (world s) = (Some eof, quiet) ∧
  ∃ why s', connect s = (Panicked why, s') ∧ conn (ep s') = Some 7.
Proof.
  cbv zeta.
  assert (Hl : listener (ep (boot (set_conn (Some 7) (NewSignerListenerEndpoint None))
                               (mkScript [Some eof] [] [] [] []))) = None)
    by reflexivity.
  assert (Hc : conn (ep (boot (set_conn (Some 7) (NewSignerListenerEndpoint None))
                           (mkScript [Some eof] [] [] [] []))) = Some 7)
    by reflexivity.
  assert (Hcc : conn_Close 7
                  (world (boot (set_conn (Some 7) (NewSignerListenerEndpoint None))
                            (mkScript [Some eof] [] [] [] []))) = (Some eof, quiet))
    by reflexivity.
  do 3 (split; [assumption|]).
  destruct (connect_nil_listener_panics_after_close _ _ _ _ Hl Hc Hcc)
    as (why & s' & Hp & Hheld & _).
  eauto.
Defined.

Lemma connect_outcomes_witness :
  let s := boot ve_fresh quiet in
  connect s = (Done (true, None), (connect s).2) ∧
  conn (ep (connect s).2) = None.
Proof.
  cbv zeta.
  assert (Hc : connect (boot ve_fresh quiet)
               = (Done (true, None), (connect (boot ve_fresh quiet)).2))
    by reflexivity.
  split; [exact Hc|].
  destruct (connect_outcomes _ _ _ _ Hc) as (Hclosed & _).
  apply Hclosed. reflexivity.
Defined.

Lemma Close_nil_means_closed_witness :
  let s := boot ve_held quiet in
  Close s = (Done None, (Close s).2) ∧
  conn (ep (Close s).2) = None.
Proof.
  cbv zeta.
  assert (Hc : Close (boot ve_held quiet) = (Done None, (Close (boot ve_held quiet)).2))
    by reflexivity.
  split; [exact Hc|].
  destruct (Close_nil_means_closed _ _ Hc) as (Hnil & _). exact Hnil.
Defined.

Lemma Close_again_recloses_listener_witness :
  let s := boot ve_held quiet in
  listener (ep s) = Some 1 ∧
  Close s = (Done None, (Close s).2) ∧
  listener_Close 1 (world (Close s).2) = (None, quiet) ∧
  trace (Close (Close s).2).2 =
    [EvLock; EvConnClose 7; EvListenerClose 1; EvUnlock;
     EvLock; EvListenerClose 1; EvUnlock].
Proof.
  cbv zeta.
  assert (Hl : listener (ep (boot ve_held quiet)) = Some 1) by reflexivity.
  assert (Hc : Close (boot ve_held quiet) = (Done None, (Close (boot ve_held quiet)).2))
    by reflexivity.
  assert (Hlc : listener_Close 1 (world (Close (boot ve_held quiet)).2) = (None, quiet))
    by reflexivity.
  do 3 (split; [assumption|]).
  rewrite (Close_again_recloses_listener _ _ 1 None quiet Hl Hc Hlc).
  reflexivity.
Defined.

Lemma Close_then_not_connected_witness :
  let s := boot ve_held quiet in
  Close s = (Done None, (Close s).2) ∧
  SendRequest (Some PingRequest) (Close s).2 =
    (Done (None, Some (Errorf "endpoint is not connected")),
     logged (Close s).2 [EvLock; EvUnlock]).
Proof.
  cbv zeta.
  assert (Hc : Close (boot ve_held quiet) = (Done None, (Close (boot ve_held quiet)).2))
    by reflexivity.
  split; [exact Hc|].
  exact (Close_then_not_connected _ _ (Some PingRequest) Hc).
Defined.


Lemma heartbeat_never_panics_witness :
  let s := boot ve_held (mkScript [] [] [(Some 8, None)] [Some eof] []) in
  pingTicker (ep s) = Some 0 ∧
  listener (ep s) = Some 1 ∧
  ∃ st s', heartbeat [Tick; Tick; Cancel] s = (Done st, s') ∧ same_config s s'.
Proof.
  cbv zeta.
  assert (Ht : pingTicker (ep (boot ve_held
                                 (mkScript [] [] [(Some 8, None)] [Some eof] [])))
               = Some 0) by reflexivity.
  assert (Hl : listener (ep (boot ve_held
                               (mkScript [] [] [(Some 8, None)] [Some eof] [])))
               = Some 1) by reflexivity.
  do 2 (split; [assumption|]).
  exact (heartbeat_never_panics _ 0 1 [Tick; Tick; Cancel] Ht Hl).
Defined.

Lemma heartbeat_fatal_keeps_connection_witness :
  let s := boot ve_held (mkScript [] [] [] [] [(Some (SignerMsg 3 []), None)]) in
  pingTicker (ep s) = Some 0 ∧
  ping s = (Done (Some ErrUnexpectedResponse), (ping s).2) ∧
  ∃ c s', heartbeat [Tick; Tick] s = (Done Terminated, s') ∧
          ep s' = ep s ∧ conn (ep s') = Some c.
Proof.
  cbv zeta.
  assert (Ht : pingTicker (ep (boot ve_held
                 (mkScript [] [] [] [] [(Some (SignerMsg 3 []), None)]))) = Some 0)
    by reflexivity.
  assert (Hp : ping (boot ve_held (mkScript [] [] [] [] [(Some (SignerMsg 3 []), None)]))
               = (Done (Some ErrUnexpectedResponse),
                  (ping (boot ve_held
                     (mkScript [] [] [] [] [(Some (SignerMsg 3 []), None)]))).2))
    by reflexivity.
  do 2 (split; [assumption|]).
  destruct (heartbeat_fatal_keeps_connection _ _ 0 [Tick] Ht Hp)
    as (c & s' & Hrun & Hep & Hc & _).
  eauto.
Defined.

Lemma start_probe_stop_witness :
  let s := boot ve_fresh (mkScript [] [] [(Some 8, None)] [] [(Some PingResponse, None)]) in
  OnStart s = (Done None, (OnStart s).2) ∧
  ∃ st s2 s3,
    heartbeat [Tick; Cancel] (OnStart s).2 = (Done st, s2) ∧
    OnStop s2 = (Done tt, s3) ∧
    chans s3 = [true].
Proof.
  cbv zeta.
  assert (Hs : OnStart (boot ve_fresh
                 (mkScript [] [] [(Some 8, None)] [] [(Some PingResponse, None)]))
               = (Done None,
                  (OnStart (boot ve_fresh
                     (mkScript [] [] [(Some 8, None)] [] [(Some PingResponse, None)]))).2))
    by reflexivity.
  split; [exact Hs|].
  destruct (start_probe_stop _ _ [Tick; Cancel] Hs)
    as (st & s2 & s3 & Hrun & Hstop & _ & Hchans & _).
  exists st, s2, s3. split; [exact Hrun|split; [exact Hstop|exact Hchans]].
Defined.

Lemma OnStart_failure_allocates_nothing_witness :
  let s := boot ve_fresh (mkScript [] [] [(None, Some eof)] [] []) in
  OnStart s = (Done (Some eof), (OnStart s).2) ∧
  same_config s (OnStart s).2.
Proof.
  cbv zeta.
  assert (Hs : OnStart (boot ve_fresh (mkScript [] [] [(None, Some eof)] [] []))
               = (Done (Some eof),
                  (OnStart (boot ve_fresh (mkScript [] [] [(None, Some eof)] [] []))).2))
    by reflexivity.
  split; [exact Hs|].
  destruct (OnStart_failure_allocates_nothing _ _ _ Hs) as (Hcfg & _). exact Hcfg.
Defined.

Lemma OnStop_full_teardown_witness :
  let s := mkSys (set_cancelPingCh (Some 0) ve_held) quiet [false] [2000000000%Z] [] in
  cancelPingCh (ep s) = Some 0 ∧
  chans s !! 0 = Some false ∧
  conn (ep s) = Some 7 ∧
  listener (ep s) = Some 1 ∧
  conn_Close 7 (world s) = (None, quiet) ∧
  listener_Close 1 quiet = (None, quiet) ∧
  trace (OnStop s).2 =
    [EvCloseChan 0; EvLock; EvConnClose 7; EvListenerClose 1; EvUnlock].
Proof.
  cbv zeta.
  assert (H1 : cancelPingCh (ep (mkSys (set_cancelPingCh (Some 0) ve_held) quiet
                                   [false] [2000000000%Z] [])) = Some 0)
    by reflexivity.
  assert (H2 : chans (mkSys (set_cancelPingCh (Some 0) ve_held) quiet
                        [false] [2000000000%Z] []) !! 0 = Some false)
    by reflexivity.
  assert (H3 : conn (ep (mkSys (set_cancelPingCh (Some 0) ve_held) quiet
                           [false] [2000000000%Z] [])) = Some 7)
    by reflexivity.
  assert (H4 : listener (ep (mkSys (set_cancelPingCh (Some 0) ve_held) quiet
                               [false] [2000000000%Z] [])) = Some 1)
    by reflexivity.
  assert (H5 : conn_Close 7 (world (mkSys (set_cancelPingCh (Some 0) ve_held) quiet
                                      [false] [2000000000%Z] [])) = (None, quiet))
    by reflexivity.
  assert (H6 : listener_Close 1 quiet = (None, quiet)) by reflexivity.
  do 6 (split; [assumption|]).
  rewrite (OnStop_full_teardown _ 0 7 1 quiet quiet H1 H2 H3 H4 H5 H6).
  reflexivity.
Defined.


Lemma heartbeat_option_sets_ticker_period_witness :
  let s := boot (SignerValidatorEndpointSetHeartbeat 500000000%Z ve_fresh)
             (mkScript [] [] [(Some 8, None)] [] []) in
  OnStart s = (Done None, (OnStart s).2) ∧
  heartbeatPeriod (ep (OnStart s).2) = 500000000%Z ∧
  tickers (OnStart s).2 = [500000000%Z].
Proof.
  cbv zeta.
  assert (Hs : OnStart (boot (SignerValidatorEndpointSetHeartbeat 500000000%Z ve_fresh)
                          (mkScript [] [] [(Some 8, None)] [] []))
               = (Done None,
                  (OnStart (boot (SignerValidatorEndpointSetHeartbeat 500000000%Z ve_fresh)
                              (mkScript [] [] [(Some 8, None)] [] []))).2))
    by reflexivity.
  split; [exact Hs|].
  destruct (heartbeat_option_sets_ticker_period _ _ _ _ Hs) as (Hp & _).
  split; [exact Hp|reflexivity].
Defined.

(** C6, counterexample. With a heartbeat period of zero, set by
    [SignerValidatorEndpointSetHeartbeat], and a [connect] that accepts a
    connection, [OnStart] does not return: [time.NewTicker] panics after the
    channel has been made, and no ticker and no goroutine is started. *)
Lemma OnStart_nonpositive_period_panics :
  let s := boot (SignerValidatorEndpointSetHeartbeat 0 ve_fresh)
             (mkScript [] [] [(Some 8, None)] [] []) in
  (connect s).1 = Done (false, None) ∧
  (OnStart s).1 = Panicked "non-positive interval for NewTicker" ∧
  trace (OnStart s).2 = [EvLock; EvAccept 1; EvUnlock; EvMakeChan 0] ∧
  conn (ep (OnStart s).2) = Some 8 ∧
  cancelPingCh (ep (OnStart s).2) = Some 0 ∧
  pingTicker (ep (OnStart s).2) = None ∧
  count is_EvGo (trace (OnStart s).2) = 0.
Proof. cbv zeta. repeat split; reflexivity. Qed.

